(** * Review Copilot backend: a shallow embedding and its verified properties

    The development follows the four source files of the repository:
    [database.py] (the SQLite review store), [ai_services.py] (the reply
    generator), [search_service.py] (the similarity finder) and [main.py]
    (enrichment and the HTTP handlers).

    Conventions of the embedding.
    - A Python [str] is a [string], the UTF-8 text of it (a [str] that has
      no UTF-8 encoding is outside the model); a Python [int] is a [Z]; a
      Python [dict] with a fixed set of keys is a record; a value that may
      be [None] is an [option].
    - A function that mutates the module-level objects of [main.py] takes the
      state and returns the new one next to its result.
    - A function that may raise returns an [outcome].
    - SQLite is modelled as a working engine: an INSERT either succeeds,
      cannot bind an integer outside 64 bits, or violates the PRIMARY KEY.
      The two tables of [ReviewDatabase] are what is committed to the file
      and what the open connection sees.
    - Third-party code (the VADER scorer, the TF-IDF vectoriser, which may
      raise, numpy's argsort, the Gemini client) and Python built-ins whose
      tables are not part of the repository ([str.lower], the regex class
      [\w]) are taken as parameters. *)

From Stdlib Require Import List String Ascii Bool Arith ZArith QArith Lia Lqa.
From Stdlib Require Import Permutation Sorted.
Import ListNotations.
Open Scope string_scope.
Open Scope list_scope.
Open Scope nat_scope.

(** ** Python values shared by the modules *)

(** The exceptions the code raises on purpose. *)
Inductive exn : Type :=
| ValueError (msg : string)
| HTTPException (status_code : Z) (detail : string).

Inductive outcome (A : Type) : Type :=
| Returned (a : A)
| Raised (e : exn).
Arguments Returned {A} a.
Arguments Raised {A} e.

(** Truthiness of an [Optional[str]]: [None] and the empty string are falsy. *)
Definition truthy (s : option string) : bool :=
  match s with
  | Some (String _ _) => true
  | _ => false
  end.

(** The enriched review [dict]: keys id, location, rating, date, text,
    sentiment, topics, and suggested_reply when the key is present. *)
Record Review : Type := mkReview {
  r_id : string;
  r_location : string;
  r_rating : Z;
  r_date : string;
  r_text : string;
  r_sentiment : string;
  r_topics : list string;
  r_suggested_reply : option string
}.

(** ** database.py *)
Module database.

(** One row of table [reviews].  Column [topics] holds [json.dumps] of the
    list and is read back with [json.loads]; the list stands for its JSON
    text.  [suggested_reply] is the only nullable column. *)
Record Row : Type := mkRow {
  row_id : string;
  row_location : string;
  row_rating : Z;
  row_date : string;
  row_text : string;
  row_sentiment : string;
  row_topics : list string;
  row_suggested_reply : option string
}.

(** Rows in rowid order, the order of [SELECT * FROM reviews]. *)
Definition Table : Type := list Row.

(** The database as one connection sees it: [committed] is what the file
    holds, [working] adds the statements of the open transaction. *)
Record ReviewDatabase : Type := mkDb {
  committed : Table;
  working : Table
}.

Definition with_working (db : ReviewDatabase) (t : Table) : ReviewDatabase :=
  {| committed := committed db; working := t |}.

(** [conn.commit()] and [conn.rollback()]. *)
Definition commit (db : ReviewDatabase) : ReviewDatabase :=
  {| committed := working db; working := working db |}.

Definition rollback (db : ReviewDatabase) : ReviewDatabase :=
  {| committed := committed db; working := committed db |}.

(** No statement is pending on the connection. *)
Definition clean (db : ReviewDatabase) : Prop := working db = committed db.

Definition has_id (t : Table) (i : string) : bool :=
  existsb (fun r => String.eqb (row_id r) i) t.

(** Column [rating] is an INTEGER: a signed 64-bit integer.  A Python int
    outside that range cannot be bound to the statement. *)
Definition fits_int64 (z : Z) : bool :=
  ((- 2 ^ 63 <=? z) && (z <? 2 ^ 63))%Z.

(** [INSERT INTO reviews (...) VALUES (...)]: [None] is the statement
    raising, [OverflowError] when the rating cannot be bound and
    [sqlite3.IntegrityError] when the id ([PRIMARY KEY]) is already there;
    the failed statement changes nothing.  The texts are taken to be
    encodable. *)
Definition sql_insert (t : Table) (r : Row) : option Table :=
  if negb (fits_int64 (row_rating r)) then None
  else if has_id t (row_id r) then None
  else Some (t ++ [r]).

(** [cursor.executemany]: the INSERT runs once per tuple, in order, and
    stops at the first tuple that raises; the rows inserted before it stay
    in the open transaction.  The boolean tells whether every tuple went
    in. *)
Fixpoint sql_executemany_insert (t : Table) (rows : list Row) : Table * bool :=
  match rows with
  | [] => (t, true)
  | r :: rest =>
      match sql_insert t r with
      | Some t' => sql_executemany_insert t' rest
      | None => (t, false)
      end
  end.

(** [UPDATE reviews SET suggested_reply = ? WHERE id = ?], with
    [cursor.rowcount]. *)
Definition sql_update_reply (t : Table) (i s : string) : Table * nat :=
  (map (fun r =>
          if String.eqb (row_id r) i
          then mkRow (row_id r) (row_location r) (row_rating r) (row_date r)
                     (row_text r) (row_sentiment r) (row_topics r) (Some s)
          else r) t,
   List.length (filter (fun r => String.eqb (row_id r) i) t)).

(** [SELECT ... WHERE id = ?] followed by [fetchone()]. *)
Definition sql_select_by_id (t : Table) (i : string) : option Row :=
  find (fun r => String.eqb (row_id r) i) t.

(** The tuple the INSERT statements bind: the seven keys of the dict, with
    [suggested_reply] NULL. *)
Definition row_of_review (review : Review) : Row :=
  mkRow (r_id review) (r_location review) (r_rating review) (r_date review)
        (r_text review) (r_sentiment review) (r_topics review) None.

(** The dict built from a row: [suggested_reply] only when it is truthy. *)
Definition review_of_row (row : Row) : Review :=
  mkReview (row_id row) (row_location row) (row_rating row) (row_date row)
           (row_text row) (row_sentiment row) (row_topics row)
           (if truthy (row_suggested_reply row)
            then row_suggested_reply row else None).

(** [add_review]: INSERT then commit; both handlers ([IntegrityError] and
    [Exception]) return [False]. *)
Definition add_review (db : ReviewDatabase) (review : Review)
  : bool * ReviewDatabase :=
  match sql_insert (working db) (row_of_review review) with
  | Some t => (true, commit (with_working db t))
  | None => (false, db)
  end.

(** [add_reviews_batch]: executemany then commit; both handlers
    ([IntegrityError] and [Exception]) roll the connection back and return
    [False]. *)
Definition add_reviews_batch (db : ReviewDatabase) (reviews : list Review)
  : bool * ReviewDatabase :=
  let review_data := map row_of_review reviews in
  match sql_executemany_insert (working db) review_data with
  | (t, true) => (true, commit (with_working db t))
  | (t, false) => (false, rollback (with_working db t))
  end.

(** [add_suggested_reply]: UPDATE, commit, then [False] when no row
    matched. *)
Definition add_suggested_reply (db : ReviewDatabase)
    (review_id suggested_reply : string) : bool * ReviewDatabase :=
  let '(t, rowcount) := sql_update_reply (working db) review_id suggested_reply in
  let db' := commit (with_working db t) in
  if Nat.eqb rowcount 0 then (false, db') else (true, db').

(** [get_all_reviews_as_json]: the JSON text stands for the list of dicts
    it serialises, which is what [json.loads] gives back to the callers. *)
Definition get_all_reviews_as_json (db : ReviewDatabase) : list Review :=
  map review_of_row (working db).

(** [get_suggested_reply]: the reply when the row exists and the column is
    truthy, [None] otherwise. *)
Definition get_suggested_reply (db : ReviewDatabase) (review_id : string)
  : option string :=
  match sql_select_by_id (working db) review_id with
  | Some row =>
      if truthy (row_suggested_reply row)
      then row_suggested_reply row else None
  | None => None
  end.

(** [get_review]. *)
Definition get_review (db : ReviewDatabase) (review_id : string)
  : option Review :=
  match sql_select_by_id (working db) review_id with
  | Some row => Some (review_of_row row)
  | None => None
  end.

(** [close] followed by the next [_get_connection]: the connection is
    closed without a commit, so what was pending is lost, and the new
    connection sees what the file holds. *)
Definition close (db : ReviewDatabase) : ReviewDatabase := rollback db.

(** One call of a writing method of the store, and a sequence of them. *)
Inductive Call : Type :=
| CallAddReview (review : Review)
| CallAddReviewsBatch (reviews : list Review)
| CallAddSuggestedReply (review_id suggested_reply : string).

Definition call (db : ReviewDatabase) (c : Call) : ReviewDatabase :=
  match c with
  | CallAddReview review => snd (add_review db review)
  | CallAddReviewsBatch reviews => snd (add_reviews_batch db reviews)
  | CallAddSuggestedReply review_id suggested_reply =>
      snd (add_suggested_reply db review_id suggested_reply)
  end.

Definition calls (db : ReviewDatabase) (cs : list Call) : ReviewDatabase :=
  fold_left call cs db.

End database.

(** ** ai_services.py *)
Module ai_services.

(** What the code reads of the object [generate_content] returns:
    [getattr(response, "text", None)] ([None] when the attribute is missing
    or is [None]) and [response.candidates[0].text] ([None] when that
    access raises). *)
Record Response : Type := mkResponse {
  response_text : option string;
  candidates0_text : option string
}.

(** [self.client.models.generate_content(...)] either raises or returns. *)
Inductive GenerateContentResult : Type :=
| ServiceRaises
| ServiceReturns (response : Response).

Definition double_quote : string := String (ascii_of_nat 34) EmptyString.

(** The f-string of [generate_reply]. *)
Definition prompt (review_text : string) : string :=
  ("
You are a professional customer service agent responding to customer feedback or reviews.
Your response should:
- Acknowledge and thank them for their feedback,
- Address their concern or dissatisfaction,
- Offer to help or request more info (or escalation) if needed,
- If it's serious, ask them to contact support at customerservice@email.com.
- Sound human, polite, empathic, and professional.

Customer’s review: " ++ double_quote ++ review_text ++ double_quote ++ "
")%string.

(** The reply returned when the service call raises. *)
Definition SERVICE_ERROR_REPLY : string :=
  ("Thank you for your feedback. "
   ++ "We encountered a technical issue while generating a reply, "
   ++ "but we value your concern. Please reach out to us at customerservice@email.com, "
   ++ "and we’ll be glad to assist you.")%string.

(** The reply returned when the response has no text and the alternate
    attribute cannot be read. *)
Definition NO_TEXT_REPLY : string :=
  "Thank you for your message. We'll get back to you via support soon.".

(** [GenerateReviewReply.generate_reply], over the behaviour of the client
    for this call. *)
Definition generate_reply (generate_content : string -> GenerateContentResult)
    (review_text : string) : string :=
  match generate_content (prompt review_text) with
  | ServiceRaises => SERVICE_ERROR_REPLY
  | ServiceReturns response =>
      match response_text response with
      | Some reply_text => reply_text
      | None =>
          match candidates0_text response with
          | Some reply_text => reply_text
          | None => NO_TEXT_REPLY
          end
      end
  end.

End ai_services.

(** ** search_service.py *)
Module search_service.
Import database.

(** [similarities[target_idx] = -1]: assignment at an index of the array. *)
Fixpoint set_item (v : list Q) (idx : nat) (x : Q) : list Q :=
  match v, idx with
  | [], _ => []
  | _ :: v', O => x :: v'
  | y :: v', S idx' => y :: set_item v' idx' x
  end.

(** The [for idx, review in enumerate(all_reviews)] loop as far as
    [target_idx] goes: every review with the id overwrites it. *)
Fixpoint scan_target (review_id : string) (all_reviews : list Review)
    (idx : nat) (target_idx : option nat) : option nat :=
  match all_reviews with
  | [] => target_idx
  | review :: rest =>
      scan_target review_id rest (S idx)
        (if String.eqb (r_id review) review_id then Some idx else target_idx)
  end.

(** The slice [a[-k:]] for [k >= 1]. *)
Definition last_k {A : Type} (k : nat) (a : list A) : list A :=
  skipn (List.length a - k) a.

(** The [try] block at the top of [find_similar_reviews]: the rows of the
    database, or the in-memory list when the database has none. *)
Definition load_all_reviews (db : ReviewDatabase) (reviews_db : list Review)
  : list Review :=
  match get_all_reviews_as_json db with
  | [] => reviews_db
  | all_reviews => all_reviews
  end.

Definition not_found_message (review_id : string) : string :=
  ("Review with ID " ++ review_id ++ " not found")%string.

Section finder.
(** [vectorizer.fit_transform(review_texts)] followed by
    [cosine_similarity(tfidf_matrix[target_idx], tfidf_matrix).flatten()].
    [fit_transform] raises [ValueError] when no text of the corpus keeps a
    term (empty texts, or stop words only); nothing in the function catches
    it. *)
Variable tfidf_cosine : list string -> nat -> outcome (list Q).
(** [np.argsort]. *)
Variable argsort : list Q -> list nat.

Definition find_similar_reviews (review_id : string) (db : ReviewDatabase)
    (reviews_db : list Review) : outcome (list string) :=
  let all_reviews := load_all_reviews db reviews_db in
  if List.length all_reviews <? 2 then Returned []
  else
    let review_ids := map r_id all_reviews in
    let review_texts := map r_text all_reviews in
    match scan_target review_id all_reviews 0 None with
    | None =>
        Raised (ValueError (not_found_message review_id))
    | Some target_idx =>
        match tfidf_cosine review_texts target_idx with
        | Raised e => Raised e
        | Returned similarities =>
            let similarities := set_item similarities target_idx (-1)%Q in
            let num_similar := Nat.min 2 (List.length all_reviews - 1) in
            let similar_indices := rev (last_k num_similar (argsort similarities)) in
            Returned (map (fun idx => nth idx review_ids EmptyString) similar_indices)
        end
    end.
End finder.

End search_service.

(** ** main.py *)
Module main.
Import database.

(** The topic keyword dictionary, in insertion order (the order in which
    [TOPIC_KEYWORDS.items()] yields it). *)
Definition TOPIC_KEYWORDS : list (string * list string) :=
  [ ("professionalism", ["professional"; "professionalism"; "expert"; "expertise"; "skilled"; "competent"]);
    ("efficiency", ["efficient"; "efficiency"; "quick"; "fast"; "timely"; "prompt"; "speedy"]);
    ("quality", ["quality"; "excellent"; "perfect"; "great"; "outstanding"; "superb"; "top-notch"]);
    ("customer_service", ["service"; "helpful"; "friendly"; "courteous"; "attentive"; "responsive"]);
    ("communication", ["communication"; "communicate"; "informed"; "updates"; "clear"; "transparent"]);
    ("timeliness", ["on time"; "punctual"; "deadline"; "schedule"; "timely"]);
    ("price", ["price"; "cost"; "expensive"; "cheap"; "affordable"; "value"; "worth"]);
    ("cleanliness", ["clean"; "cleanliness"; "tidy"; "neat"; "spotless"; "organized"]);
    ("reliability", ["reliable"; "dependable"; "trustworthy"; "consistent"; "trust"]);
    ("experience", ["experience"; "knowledgeable"; "seasoned"; "veteran"]) ].

(** The pydantic request model of [/ingest]. *)
Record ReviewInput : Type := mkInput {
  in_id : string;
  in_location : string;
  in_rating : Z;
  in_date : string;
  in_text : string
}.

(** [Union[ReviewInput, List[ReviewInput]]] and the matching response. *)
Inductive IngestBody : Type :=
| Single (review : ReviewInput)
| Batch (reviews : list ReviewInput).

Inductive IngestResponse : Type :=
| One (enriched_review : Review)
| Many (enriched_reviews : list Review).

Record GenerateReplyResponse : Type := mkReplyResponse {
  review_id : string;
  review_text : string;
  suggested_reply : string
}.

(** The module-level objects the handlers share: the list [reviews_db],
    the database [db], and the reply generator.  [gemini n p] is what the
    client's [generate_content] does on the call number [n] of the
    generator when given prompt [p]; [generate_calls] counts the calls of
    [reply_generator.generate_reply] made so far. *)
Record World : Type := mkWorld {
  reviews_db : list Review;
  db : ReviewDatabase;
  gemini : nat -> string -> ai_services.GenerateContentResult;
  generate_calls : nat
}.

(** [reply_generator.generate_reply(text)]. *)
Definition reply_generator_generate_reply (w : World) (text : string)
  : string * World :=
  (ai_services.generate_reply (gemini w (generate_calls w)) text,
   mkWorld (reviews_db w) (db w) (gemini w) (S (generate_calls w))).

(** *** Regular-expression search for [\b keyword \b] *)
Section word_search.
(** The character class [\w] of [re]. *)
Variable is_word_char : ascii -> bool.

Definition is_w (c : option ascii) : bool :=
  match c with
  | Some c => is_word_char c
  | None => false
  end.

(** [\b] between two neighbouring characters ([None] beyond an end of
    the text): exactly one of them is a word character. *)
Definition boundary (before after : option ascii) : bool :=
  xorb (is_w before) (is_w after).

Definition first_char (s : string) : option ascii :=
  match s with
  | EmptyString => None
  | String c _ => Some c
  end.

(** The last character of [s], or [prev] when [s] is empty. *)
Fixpoint last_char_or (prev : option ascii) (s : string) : option ascii :=
  match s with
  | EmptyString => prev
  | String c s' => last_char_or (Some c) s'
  end.

(** What follows [keyword] in [s] when [s] starts with it. *)
Fixpoint strip_prefix (keyword s : string) : option string :=
  match keyword, s with
  | EmptyString, _ => Some s
  | String a keyword', String b s' =>
      if Ascii.eqb a b then strip_prefix keyword' s' else None
  | String _ _, EmptyString => None
  end.

(** The pattern matches at the current position, [prev] being the
    character before it. *)
Definition match_here (prev : option ascii) (keyword s : string) : bool :=
  match strip_prefix keyword s with
  | Some rest =>
      boundary prev (first_char s)
      && boundary (last_char_or prev keyword) (first_char rest)
  | None => false
  end.

(** [re.search]: the start positions are tried from left to right. *)
Fixpoint search_from (prev : option ascii) (keyword s : string) : bool :=
  match_here prev keyword s
  || match s with
     | EmptyString => false
     | String c s' => search_from (Some c) keyword s'
     end.

(** [re.search(r'\b' + re.escape(keyword) + r'\b', text_lower)] is
    truthy. *)
Definition re_search_word (keyword text_lower : string) : bool :=
  search_from None keyword text_lower.
End word_search.

Section enrichment.
(** [sia.polarity_scores(text)['compound']].  The score is a float; a
    float is the rational it denotes, and the literals [0.05] and
    [-0.05] are read as the decimals they round: no float lies between
    a literal's float and its decimal, so the comparisons agree. *)
Variable polarity_compound : string -> Q.
(** [str.lower]. *)
Variable str_lower : string -> string.
Variable is_word_char : ascii -> bool.

Definition analyze_sentiment (text : string) : string :=
  let compound := polarity_compound text in
  if Qle_bool (5 # 100) compound then "positive"
  else if Qle_bool compound (- (5 # 100)) then "negative"
  else "neutral".

(** The inner [for keyword in keywords] loop with its [break]: whether
    the topic is appended. *)
Fixpoint keywords_loop (keywords : list string) (text_lower : string) : bool :=
  match keywords with
  | [] => false
  | keyword :: rest =>
      if re_search_word is_word_char keyword text_lower then true
      else keywords_loop rest text_lower
  end.

(** The outer [for topic, keywords in TOPIC_KEYWORDS.items()] loop. *)
Fixpoint topics_loop (items : list (string * list string))
    (text_lower : string) (matched_topics : list string) : list string :=
  match items with
  | [] => matched_topics
  | (topic, keywords) :: rest =>
      topics_loop rest text_lower
        (if keywords_loop keywords text_lower
         then matched_topics ++ [topic] else matched_topics)
  end.

Definition extract_topics (text : string) : list string :=
  let text_lower := str_lower text in
  match topics_loop TOPIC_KEYWORDS text_lower [] with
  | [] => ["general"]
  | matched_topics => matched_topics
  end.

(** *** /ingest *)

Definition id_in (reviews : list Review) (i : string) : bool :=
  existsb (fun r => String.eqb (r_id r) i) reviews.

Definition duplicate_detail (i : string) : string :=
  ("Review with id " ++ i ++ " already exists")%string.

Definition process_single_review (reviews_db : list Review)
    (review_data : ReviewInput) : outcome Review :=
  if id_in reviews_db (in_id review_data)
  then Raised (HTTPException 400 (duplicate_detail (in_id review_data)))
  else
    Returned (mkReview (in_id review_data) (in_location review_data)
                (in_rating review_data) (in_date review_data)
                (in_text review_data)
                (analyze_sentiment (in_text review_data))
                (extract_topics (in_text review_data)) None).

(** [for review_item in review: enriched_reviews.append(...)]; the list
    [reviews_db] is not touched while the loop runs. *)
Fixpoint process_each (reviews_db : list Review) (review : list ReviewInput)
  : outcome (list Review) :=
  match review with
  | [] => Returned []
  | review_item :: rest =>
      match process_single_review reviews_db review_item with
      | Raised e => Raised e
      | Returned enriched =>
          match process_each reviews_db rest with
          | Raised e => Raised e
          | Returned enriched_reviews => Returned (enriched :: enriched_reviews)
          end
      end
  end.

(** [ingest_review].  [db] is a [ReviewDatabase], so
    [hasattr(db, 'add_reviews_batch')] holds; a [False] from the
    database only prints a warning. *)
Definition ingest_review (w : World) (review : IngestBody)
  : outcome IngestResponse * World :=
  match review with
  | Batch reviews =>
      match process_each (reviews_db w) reviews with
      | Raised e => (Raised e, w)
      | Returned enriched_reviews =>
          let memory := reviews_db w ++ enriched_reviews in
          let '(_, db') := add_reviews_batch (db w) enriched_reviews in
          (Returned (Many enriched_reviews),
           mkWorld memory db' (gemini w) (generate_calls w))
      end
  | Single review_data =>
      match process_single_review (reviews_db w) review_data with
      | Raised e => (Raised e, w)
      | Returned enriched_review =>
          let memory := reviews_db w ++ [enriched_review] in
          let '(_, db') := add_review (db w) enriched_review in
          (Returned (One enriched_review),
           mkWorld memory db' (gemini w) (generate_calls w))
      end
  end.
End enrichment.

(** *** /generate-reply and /reply/{review_id} *)

Definition find_review (reviews : list Review) (i : string) : option Review :=
  find (fun r => String.eqb (r_id r) i) reviews.

(** Memory first, then the database. *)
Definition resolve_review (w : World) (i : string) : option Review :=
  match find_review (reviews_db w) i with
  | Some review => Some review
  | None => find_review (get_all_reviews_as_json (db w)) i
  end.

Definition not_found_detail (i : string) : string :=
  ("Review with id " ++ i ++ " not found")%string.

(** [generate_reply], over the method [db.add_suggested_reply] it calls
    inside [try/except]: [persist] either returns its boolean or raises,
    and both are only logged. *)
Definition generate_reply_with
    (persist : ReviewDatabase -> string -> string -> outcome bool * ReviewDatabase)
    (w : World) (request_review_id : string)
  : outcome GenerateReplyResponse * World :=
  match resolve_review w request_review_id with
  | None => (Raised (HTTPException 404 (not_found_detail request_review_id)), w)
  | Some review =>
      match get_suggested_reply (db w) request_review_id with
      | Some (String _ _ as existing_reply) =>
          (* [if existing_reply:] *)
          (Returned (mkReplyResponse request_review_id (r_text review) existing_reply),
           w)
      | _ =>
          let '(suggested_reply, w1) :=
            reply_generator_generate_reply w (r_text review) in
          let '(_, db2) := persist (db w1) request_review_id suggested_reply in
          (Returned (mkReplyResponse request_review_id (r_text review) suggested_reply),
           mkWorld (reviews_db w1) db2 (gemini w1) (generate_calls w1))
      end
  end.

(** The method of [ReviewDatabase]: it catches what it raises. *)
Definition db_add_suggested_reply (d : ReviewDatabase) (i s : string)
  : outcome bool * ReviewDatabase :=
  let '(ok, d') := add_suggested_reply d i s in (Returned ok, d').

Definition generate_reply (w : World) (request_review_id : string)
  : outcome GenerateReplyResponse * World :=
  generate_reply_with db_add_suggested_reply w request_review_id.

Definition no_reply_detail (i : string) : string :=
  ("No reply found for review " ++ i)%string.

(** [get_reply]: the JSON object with keys review_id and reply, as a
    pair. *)
Definition get_reply (w : World) (review_id : string)
  : outcome (string * string) :=
  match get_suggested_reply (db w) review_id with
  | None => Raised (HTTPException 404 (no_reply_detail review_id))
  | Some reply => Returned (review_id, reply)
  end.

(** [root]: the JSON object of the root endpoint. *)
Record RootInfo : Type := mkRootInfo {
  message : string;
  endpoints : list string;
  total_reviews : nat
}.

Definition root (w : World) : RootInfo :=
  mkRootInfo "Review Management API"
    ["/ingest"; "/generate-reply"; "/all-reviews"; "/reply/{review_id}"]
    (List.length (reviews_db w)).

(** [get_all_reviews]: the reviews of the database when it has any, the
    in-memory list otherwise.  This is the value the function returns, before
    the response model of the route serialises it. *)
Definition get_all_reviews (w : World) : list Review :=
  match get_all_reviews_as_json (db w) with
  | [] => reviews_db w
  | db_reviews => db_reviews
  end.

(** [n] calls of [generate_reply] for the same id, one after the other: the
    responses in order and the state after the last. *)
Fixpoint generate_reply_times (n : nat) (w : World) (request_review_id : string)
  : list (outcome GenerateReplyResponse) * World :=
  match n with
  | O => ([], w)
  | S n' =>
      let '(response, w1) := generate_reply w request_review_id in
      let '(responses, w2) := generate_reply_times n' w1 request_review_id in
      (response :: responses, w2)
  end.

End main.

(** ** Instances used to run the model

    ASCII versions of the built-ins, a small lexicon scorer, a small
    similarity and an insertion-sort [argsort], so that the definitions above
    evaluate on concrete inputs. *)
Module fixtures.
Import database main.

(** [str.lower] and [\w] on ASCII text. *)
Definition ascii_lower_char (c : ascii) : ascii :=
  let n := nat_of_ascii c in
  if (65 <=? n) && (n <=? 90) then ascii_of_nat (n + 32) else c.

Fixpoint ascii_lower (s : string) : string :=
  match s with
  | EmptyString => EmptyString
  | String c s' => String (ascii_lower_char c) (ascii_lower s')
  end.

Definition ascii_is_word (c : ascii) : bool :=
  let n := nat_of_ascii c in
  ((48 <=? n) && (n <=? 57)) || ((65 <=? n) && (n <=? 90))
  || ((97 <=? n) && (n <=? 122)) || (n =? 95).

(** Whether [needle] occurs in [s]. *)
Fixpoint occurs (needle s : string) : bool :=
  match strip_prefix needle s with
  | Some _ => true
  | None =>
      match s with
      | EmptyString => false
      | String _ s' => occurs needle s'
      end
  end.

(** A two-word lexicon: 0 on text with neither word. *)
Definition toy_compound (text : string) : Q :=
  if occurs "excellent" (ascii_lower text) then (6 # 10)
  else if occurs "disappointed" (ascii_lower text) then (- (5 # 10))
  else 0%Q.

Definition text_rev001 : string :=
  "Excellent service! The team was very professional and efficient. They completed the work on time and the quality was outstanding.".

Definition text_rev002 : string :=
  "Very disappointed with the service. The staff was unprofessional and the work was delayed by several days. Poor communication throughout.".

(** The message of the vectoriser when the vocabulary is empty. *)
Definition EMPTY_VOCABULARY : string :=
  "empty vocabulary; perhaps the documents only contain stop words".

(** A similarity that only tells equal texts from different ones, and that
    raises as the vectoriser does when every text is empty. *)
Definition toy_cosine (texts : list string) (target_idx : nat)
  : outcome (list Q) :=
  if forallb (fun t => String.eqb t EmptyString) texts
  then Raised (ValueError EMPTY_VOCABULARY)
  else Returned (map (fun t => if String.eqb t (nth target_idx texts EmptyString)
                               then 1%Q else 0%Q)
                     texts).

(** Insertion of index [i] into a list of indices ordered by their
    values in [v]. *)
Fixpoint insert_index (v : list Q) (i : nat) (sorted : list nat) : list nat :=
  match sorted with
  | [] => [i]
  | j :: rest =>
      if Qle_bool (nth i v 0%Q) (nth j v 0%Q) then i :: j :: rest
      else j :: insert_index v i rest
  end.

(** An [argsort] by insertion sort (ties keep the lower index first). *)
Definition insertion_argsort (v : list Q) : list nat :=
  fold_right (insert_index v) [] (seq 0 (List.length v)).

Definition sample_review (i text : string) : Review :=
  mkReview i "NY" 5 "2025-10-04" text "neutral" ["general"] None.

Definition sample_input (i text : string) : ReviewInput :=
  mkInput i "NY" 5 "2025-10-04" text.

Definition empty_db : ReviewDatabase := mkDb [] [].

(** A database holding the rows of [reviews], nothing pending. *)
Definition db_of (reviews : list Review) : ReviewDatabase :=
  mkDb (map row_of_review reviews) (map row_of_review reviews).

(** A client that answers every call with the text [reply]. *)
Definition gemini_says (reply : string) (n : nat) (p : string)
  : ai_services.GenerateContentResult :=
  ai_services.ServiceReturns (ai_services.mkResponse (Some reply) None).

(** A client whose first answer carries an empty text, and the later ones
    a thank-you. *)
Definition gemini_empty_first (n : nat) (p : string)
  : ai_services.GenerateContentResult :=
  match n with
  | O => ai_services.ServiceReturns (ai_services.mkResponse (Some EmptyString) None)
  | S _ => ai_services.ServiceReturns (ai_services.mkResponse (Some "Thank you!") None)
  end.
End fixtures.

(** ** Specification-side definitions *)
Module spec.
Import main.

(** A keyword matches a text as a whole word (or whole phrase): the text
    splits around an occurrence of the keyword with a word boundary on
    each side of it. *)
Definition whole_word_match (is_word_char : ascii -> bool)
    (keyword text : string) : Prop :=
  exists pre post : string,
    text = (pre ++ keyword ++ post)%string
    /\ boundary is_word_char (last_char_or None pre)
         (first_char (keyword ++ post)%string) = true
    /\ boundary is_word_char (last_char_or (last_char_or None pre) keyword)
         (first_char post) = true.

(** The topics of the dictionary one of whose keywords matches, in
    dictionary order. *)
Definition matching_topics (is_word_char : ascii -> bool) (text_lower : string)
  : list string :=
  map fst
    (filter (fun item =>
               existsb (fun keyword => re_search_word is_word_char keyword text_lower)
                       (snd item))
            TOPIC_KEYWORDS).

(** The extractor as the specification words it. *)
Definition extract (str_lower : string -> string) (is_word_char : ascii -> bool)
    (text : string) : list string :=
  match matching_topics is_word_char (str_lower text) with
  | [] => ["general"]
  | topics => topics
  end.

(** The vectoriser accepts a corpus: it returns similarities whatever the
    target (whether [fit_transform] raises depends on the texts alone). *)
Definition vectoriser_returns (tfidf_cosine : list string -> nat -> outcome (list Q))
    (texts : list string) : Prop :=
  forall target_idx, exists similarities,
    tfidf_cosine texts target_idx = Returned similarities.

(** The reviews of an [/ingest] body, the enriched dict of one of them, and
    the response that carries the enriched dicts of a body. *)
Definition body_reviews (body : IngestBody) : list ReviewInput :=
  match body with
  | Single review => [review]
  | Batch reviews => reviews
  end.

Definition enriched (polarity_compound : string -> Q)
    (str_lower : string -> string) (is_word_char : ascii -> bool)
    (review_data : ReviewInput) : Review :=
  mkReview (in_id review_data) (in_location review_data) (in_rating review_data)
    (in_date review_data) (in_text review_data)
    (analyze_sentiment polarity_compound (in_text review_data))
    (extract_topics str_lower is_word_char (in_text review_data)) None.

Definition response_for (body : IngestBody) (reviews : list Review)
  : IngestResponse :=
  match body, reviews with
  | Single _, review :: _ => One review
  | _, _ => Many reviews
  end.
End spec.

(** * Properties *)

Import database main.

(** ** The review store *)

Lemma has_id_app (t1 t2 : Table) (i : string) :
  has_id (t1 ++ t2) i = has_id t1 i || has_id t2 i.
Proof. unfold has_id. apply existsb_app. Qed.

Lemma has_id_single (r : Row) (i : string) :
  has_id [r] i = String.eqb (row_id r) i.
Proof. unfold has_id. simpl. apply orb_false_r. Qed.

Lemma sql_insert_some (t t' : Table) (r : Row) :
  sql_insert t r = Some t'
  <-> fits_int64 (row_rating r) = true /\ has_id t (row_id r) = false
      /\ t' = t ++ [r].
Proof.
  unfold sql_insert.
  destruct (fits_int64 (row_rating r)); destruct (has_id t (row_id r)); simpl;
    split; try discriminate; try (intros [? [? ?]]; discriminate).
  - intros H. injection H as <-. now repeat split.
  - intros [_ [_ ->]]. reflexivity.
Qed.

Lemma sql_insert_known_id (t : Table) (r : Row) :
  has_id t (row_id r) = true -> sql_insert t r = None.
Proof.
  intros H. unfold sql_insert. rewrite H. now destruct (fits_int64 (row_rating r)).
Qed.

(** A batch that [executemany] accepts whole has pairwise distinct ids, none
    of them in the table it started from. *)
Lemma executemany_accepts (rows : list Row) :
  forall t t', sql_executemany_insert t rows = (t', true) ->
    NoDup (map row_id rows)
    /\ (forall r, In r rows -> has_id t (row_id r) = false).
Proof.
  induction rows as [| r rest IH]; intros t t' H; simpl in *.
  - split; [constructor | intros r []].
  - destruct (sql_insert t r) as [t1 |] eqn:Ei; [| discriminate].
    apply sql_insert_some in Ei. destruct Ei as [_ [Hr ->]].
    apply IH in H. destruct H as [Hnd Hfresh].
    assert (Hrest : forall r', In r' rest ->
              has_id t (row_id r') = false /\ row_id r <> row_id r').
    { intros r' Hin. specialize (Hfresh r' Hin).
      rewrite has_id_app, has_id_single in Hfresh.
      apply orb_false_iff in Hfresh. destruct Hfresh as [Ht Hne].
      split; [exact Ht |]. now apply String.eqb_neq in Hne. }
    split.
    + constructor; [| exact Hnd].
      intro Hin. apply in_map_iff in Hin. destruct Hin as [r' [Heq Hin]].
      destruct (Hrest r' Hin) as [_ Hne]. congruence.
    + intros r' [-> | Hin]; [exact Hr | apply (Hrest r' Hin)].
Qed.

(** A rejected [executemany] followed by the handler's rollback. *)
Lemma executemany_rejects (db : ReviewDatabase) (reviews : list Review) :
  ~ NoDup (map r_id reviews)
  \/ (exists review, In review reviews /\ has_id (working db) (r_id review) = true) ->
  add_reviews_batch db reviews = (false, rollback db).
Proof.
  intros Hdup. unfold add_reviews_batch.
  destruct (sql_executemany_insert (working db) (map row_of_review reviews))
    as [t ok] eqn:E.
  destruct ok; [| reflexivity].
  exfalso. apply executemany_accepts in E. destruct E as [Hnd Hfresh].
  rewrite map_map in Hnd. simpl in Hnd.
  destruct Hdup as [Hdup | [review [Hin Hhas]]].
  - apply Hdup. exact Hnd.
  - specialize (Hfresh (row_of_review review) (in_map _ _ _ Hin)).
    simpl in Hfresh. congruence.
Qed.

(** Every method of the store leaves the connection with nothing pending,
    provided it found it so. *)
Lemma clean_add_review (db : ReviewDatabase) (review : Review) :
  clean db -> clean (snd (add_review db review)).
Proof.
  intros H. unfold add_review.
  destruct (sql_insert _ _); simpl; [reflexivity | exact H].
Qed.

Lemma clean_add_reviews_batch (db : ReviewDatabase) (reviews : list Review) :
  clean (snd (add_reviews_batch db reviews)).
Proof.
  unfold add_reviews_batch.
  destruct (sql_executemany_insert _ _) as [t []]; reflexivity.
Qed.

Lemma clean_add_suggested_reply (db : ReviewDatabase) (i s : string) :
  clean (snd (add_suggested_reply db i s)).
Proof.
  unfold add_suggested_reply, sql_update_reply.
  destruct (Nat.eqb _ 0); reflexivity.
Qed.

Lemma rollback_clean (db : ReviewDatabase) : clean db -> rollback db = db.
Proof.
  destruct db as [c w]. unfold clean, rollback. simpl. intros ->. reflexivity.
Qed.

Section ingest_properties.
Variable polarity_compound : string -> Q.
Variable str_lower : string -> string.
Variable is_word_char : ascii -> bool.

Local Abbreviation process_single_review :=
  (process_single_review polarity_compound str_lower is_word_char).
Local Abbreviation process_each := (process_each polarity_compound str_lower is_word_char).
Local Abbreviation ingest_review := (ingest_review polarity_compound str_lower is_word_char).

Lemma process_single_review_id (memory : list Review) (review_data : ReviewInput)
    (enriched : Review) :
  process_single_review memory review_data = Returned enriched ->
  r_id enriched = in_id review_data.
Proof.
  unfold main.process_single_review.
  destruct (id_in memory (in_id review_data)); [discriminate |].
  intros H. injection H as <-. reflexivity.
Qed.

Lemma process_each_ids (memory : list Review) (batch : list ReviewInput) :
  forall enriched_reviews,
    process_each memory batch = Returned enriched_reviews ->
    map r_id enriched_reviews = map in_id batch.
Proof.
  induction batch as [| x rest IH]; intros l H; simpl in H.
  - injection H as <-. reflexivity.
  - destruct (process_single_review memory x) as [e |] eqn:Ex; [| discriminate].
    destruct (process_each memory rest) as [l' |] eqn:El; [| discriminate].
    injection H as <-. simpl.
    rewrite (process_single_review_id _ _ _ Ex), (IH l' eq_refl). reflexivity.
Qed.

(** The handler leaves the connection with nothing pending. *)
Lemma ingest_review_clean (w : World) (body : IngestBody) :
  clean (db w) -> clean (db (snd (ingest_review w body))).
Proof.
  intros Hclean. unfold main.ingest_review. destruct body as [review_data | batch].
  - destruct (process_single_review (reviews_db w) review_data) as [e |];
      [| exact Hclean].
    pose proof (clean_add_review (db w) e Hclean) as H.
    destruct (add_review (db w) e) as [ok d]. exact H.
  - destruct (process_each (reviews_db w) batch) as [l |]; [| exact Hclean].
    pose proof (clean_add_reviews_batch (db w) l) as H.
    destruct (add_reviews_batch (db w) l) as [ok d]. exact H.
Qed.

(** C2. A single insert of a review whose id the store already holds fails
    and changes nothing: [add_review] returns [False] and leaves the
    database as it was; the [/ingest] handler answers 400 and leaves every
    shared object as it was when the id is in its list; and whenever the id
    is in the table, the handler leaves the database as it was. *)
Theorem duplicate_single_insert_rejected
    (store : ReviewDatabase) (review : Review)
    (w : World) (review_data : ReviewInput) :
  (has_id (working store) (r_id review) = true ->
     add_review store review = (false, store))
  /\ (id_in (reviews_db w) (in_id review_data) = true ->
        ingest_review w (Single review_data)
        = (Raised (HTTPException 400 (duplicate_detail (in_id review_data))), w))
  /\ (has_id (working (db w)) (in_id review_data) = true ->
        db (snd (ingest_review w (Single review_data))) = db w).
Proof.
  split; [| split].
  - intros H. unfold add_review.
    rewrite sql_insert_known_id; [reflexivity | exact H].
  - intros H. unfold main.ingest_review, main.process_single_review.
    rewrite H. reflexivity.
  - intros H. unfold main.ingest_review.
    destruct (process_single_review (reviews_db w) review_data) as [e |] eqn:E;
      [| reflexivity].
    apply process_single_review_id in E.
    unfold add_review. rewrite sql_insert_known_id; [reflexivity |].
    simpl. now rewrite E.
Qed.

(** C3. A batch with an id that repeats inside the batch or that the table
    already holds is refused whole: [add_reviews_batch] returns [False],
    what is committed is what was committed before and nothing of the
    batch stays pending (so a connection with nothing pending is left
    exactly as it was); and the [/ingest] handler given such a batch
    commits nothing to the database. *)
Theorem duplicate_batch_insert_rejected
    (store : ReviewDatabase) (reviews : list Review)
    (w : World) (batch : list ReviewInput) :
  (~ NoDup (map r_id reviews)
   \/ (exists review, In review reviews
                      /\ has_id (working store) (r_id review) = true) ->
     fst (add_reviews_batch store reviews) = false
     /\ committed (snd (add_reviews_batch store reviews)) = committed store
     /\ working (snd (add_reviews_batch store reviews)) = committed store
     /\ (clean store -> snd (add_reviews_batch store reviews) = store))
  /\ (~ NoDup (map in_id batch)
      \/ (exists review_data, In review_data batch
                              /\ has_id (working (db w)) (in_id review_data) = true) ->
        committed (db (snd (ingest_review w (Batch batch)))) = committed (db w)
        /\ (clean (db w) -> db (snd (ingest_review w (Batch batch))) = db w)).
Proof.
  split.
  - intros H. rewrite (executemany_rejects _ _ H). simpl.
    repeat split. apply rollback_clean.
  - intros H. unfold main.ingest_review.
    destruct (process_each (reviews_db w) batch) as [l |] eqn:E;
      [| split; reflexivity].
    pose proof (process_each_ids _ _ _ E) as Hids.
    assert (Hdup : ~ NoDup (map r_id l)
                   \/ (exists review, In review l
                                      /\ has_id (working (db w)) (r_id review) = true)).
    { destruct H as [H | [x [Hin Hhas]]].
      - left. rewrite Hids. exact H.
      - right.
        assert (Hx : In (in_id x) (map r_id l))
          by (rewrite Hids; apply in_map; exact Hin).
        apply in_map_iff in Hx. destruct Hx as [r [Hr Hinr]].
        exists r. split; [exact Hinr | rewrite Hr; exact Hhas]. }
    rewrite (executemany_rejects _ _ Hdup). simpl.
    split; [reflexivity | apply rollback_clean].
Qed.
End ingest_properties.

(** A single insert of a duplicate id, run: the id is both in the table and
    in the list of the handler. *)
Lemma duplicate_single_insert_rejected_witness :
  let store := fixtures.db_of [fixtures.sample_review "rev001" "Great"] in
  let w := mkWorld [fixtures.sample_review "rev001" "Great"] store
             (fixtures.gemini_says "Thank you!") 0 in
  let review_data := fixtures.sample_input "rev001" "Again" in
  add_review store (fixtures.sample_review "rev001" "Other")
  = (false, store)
  /\ ingest_review fixtures.toy_compound fixtures.ascii_lower fixtures.ascii_is_word
       w (Single review_data)
     = (Raised (HTTPException 400 (duplicate_detail "rev001")), w)
  /\ db (snd (ingest_review fixtures.toy_compound fixtures.ascii_lower
                fixtures.ascii_is_word w (Single review_data))) = db w.
Proof.
  intros store w review_data.
  pose proof (duplicate_single_insert_rejected fixtures.toy_compound
                fixtures.ascii_lower fixtures.ascii_is_word
                store (fixtures.sample_review "rev001" "Other") w review_data)
    as [H1 [H2 H3]].
  split; [apply H1; reflexivity | split; [apply H2; reflexivity | apply H3; reflexivity]].
Defined.

(** A batch that repeats an id, run against an empty table, and a batch that
    collides with a stored id, run through the handler. *)
Lemma duplicate_batch_insert_rejected_witness :
  let store := fixtures.db_of [fixtures.sample_review "rev001" "Great"] in
  let reviews := [fixtures.sample_review "rev002" "Fine";
                  fixtures.sample_review "rev002" "Fine again"] in
  let w := mkWorld [] store (fixtures.gemini_says "Thank you!") 0 in
  let batch := [fixtures.sample_input "rev003" "New";
                fixtures.sample_input "rev001" "Old"] in
  (fst (add_reviews_batch store reviews) = false
   /\ committed (snd (add_reviews_batch store reviews)) = committed store
   /\ working (snd (add_reviews_batch store reviews)) = committed store
   /\ snd (add_reviews_batch store reviews) = store)
  /\ committed (db (snd (ingest_review fixtures.toy_compound fixtures.ascii_lower
                           fixtures.ascii_is_word w (Batch batch))))
     = committed (db w)
  /\ db (snd (ingest_review fixtures.toy_compound fixtures.ascii_lower
                fixtures.ascii_is_word w (Batch batch))) = db w.
Proof.
  intros store reviews w batch.
  pose proof (duplicate_batch_insert_rejected fixtures.toy_compound
                fixtures.ascii_lower fixtures.ascii_is_word
                store reviews w batch) as [H1 H2].
  assert (Hstore : ~ NoDup (map r_id reviews)
                   \/ (exists review, In review reviews
                                      /\ has_id (working store) (r_id review) = true)).
  { left. intro Hnd. inversion Hnd as [| x l Hnotin _]. apply Hnotin. left. reflexivity. }
  assert (Hbatch : ~ NoDup (map in_id batch)
                   \/ (exists review_data, In review_data batch
                         /\ has_id (working (db w)) (in_id review_data) = true)).
  { right. exists (fixtures.sample_input "rev001" "Old").
    split; [right; left; reflexivity | reflexivity]. }
  destruct (H1 Hstore) as [A [B [C D]]].
  destruct (H2 Hbatch) as [E F].
  split; [split; [exact A | split; [exact B | split; [exact C |]]] | split; [exact E |]].
  - apply D. reflexivity.
  - apply F. reflexivity.
Defined.

(** What the handler does in the two cases the theorems above leave open.
    An id that is in the table and not in the list of the handler (the state
    after a restart): the database refuses the row and stays as it was, the
    handler answers with the enriched review and its list grows. *)
Example ingest_single_stored_id_only :
  let store := fixtures.db_of [fixtures.sample_review "rev001" "Great"] in
  let w := mkWorld [] store (fixtures.gemini_says "Thank you!") 0 in
  let enriched := mkReview "rev001" "NY" 5 "2025-10-04" "Again" "neutral" ["general"] None in
  ingest_review fixtures.toy_compound fixtures.ascii_lower fixtures.ascii_is_word
    w (Single (fixtures.sample_input "rev001" "Again"))
  = (Returned (One enriched),
     mkWorld [enriched] store (fixtures.gemini_says "Thank you!") 0).
Proof. reflexivity. Qed.

(** A batch that repeats an id, none of them known to the handler: the loop
    checks each review against the list as it was before the batch, so both
    go into the list; the database refuses the batch and stays empty. *)
Example ingest_batch_repeated_id :
  let w := mkWorld [] fixtures.empty_db (fixtures.gemini_says "Thank you!") 0 in
  let first := mkReview "rev002" "NY" 5 "2025-10-04" "Fine" "neutral" ["general"] None in
  let second := mkReview "rev002" "NY" 5 "2025-10-04" "Fine again" "neutral" ["general"] None in
  ingest_review fixtures.toy_compound fixtures.ascii_lower fixtures.ascii_is_word
    w (Batch [fixtures.sample_input "rev002" "Fine";
              fixtures.sample_input "rev002" "Fine again"])
  = (Returned (Many [first; second]),
     mkWorld [first; second] fixtures.empty_db (fixtures.gemini_says "Thank you!") 0).
Proof. reflexivity. Qed.

(** ** Enrichment: sentiment and topics *)

Section sentiment_properties.
Variable polarity_compound : string -> Q.

Local Abbreviation analyze_sentiment := (analyze_sentiment polarity_compound).

(** C5. [analyze_sentiment] is a function of the text alone, defined on
    every text: it answers positive exactly when the compound score is at
    least 0.05, negative exactly when it is at most -0.05 and neutral exactly
    in between; and the empty text, which the scorer scores 0, is neutral. *)
Theorem analyze_sentiment_thresholds (text : string) :
  (analyze_sentiment text = "positive" <-> (5 # 100 <= polarity_compound text)%Q)
  /\ (analyze_sentiment text = "negative" <-> (polarity_compound text <= - (5 # 100))%Q)
  /\ (analyze_sentiment text = "neutral"
      <-> (- (5 # 100) < polarity_compound text /\ polarity_compound text < 5 # 100)%Q)
  /\ ((polarity_compound EmptyString == 0)%Q -> analyze_sentiment EmptyString = "neutral").
Proof.
  assert (Hcases : forall t,
    (analyze_sentiment t = "positive" /\ (5 # 100 <= polarity_compound t)%Q)
    \/ (analyze_sentiment t = "negative" /\ (polarity_compound t <= - (5 # 100))%Q)
    \/ (analyze_sentiment t = "neutral"
        /\ (- (5 # 100) < polarity_compound t)%Q /\ (polarity_compound t < 5 # 100)%Q)).
  { intros t. unfold main.analyze_sentiment.
    destruct (Qle_bool (5 # 100) (polarity_compound t)) eqn:Hp.
    - left. split; [reflexivity | now apply Qle_bool_iff].
    - destruct (Qle_bool (polarity_compound t) (- (5 # 100))) eqn:Hn.
      + right; left. split; [reflexivity | now apply Qle_bool_iff].
      + right; right. split; [reflexivity |].
        split; apply Qnot_le_lt; intro H; apply Qle_bool_iff in H; congruence. }
  repeat split.
  - intros H. destruct (Hcases text) as [[_ Hc] | [[He _] | [He _]]];
      [exact Hc | congruence | congruence].
  - intros H. destruct (Hcases text) as [[He _] | [[_ Hc] | [_ [_ Hc]]]];
      [exact He | lra | lra].
  - intros H. destruct (Hcases text) as [[He _] | [[_ Hc] | [He _]]];
      [congruence | exact Hc | congruence].
  - intros H. destruct (Hcases text) as [[_ Hc] | [[He _] | [_ [Hc _]]]];
      [lra | exact He | lra].
  - destruct (Hcases text) as [[He _] | [[He _] | [_ [Hc _]]]];
      [congruence | congruence | exact Hc].
  - destruct (Hcases text) as [[He _] | [[He _] | [_ [_ Hc]]]];
      [congruence | congruence | exact Hc].
  - intros [H1 H2]. destruct (Hcases text) as [[_ Hc] | [[_ Hc] | [He _]]];
      [lra | lra | exact He].
  - intros H0. destruct (Hcases EmptyString) as [[_ Hc] | [[_ Hc] | [He _]]];
      [lra | lra | exact He].
Qed.
End sentiment_properties.

(** The thresholds, run on a scorer that scores the empty text 0. *)
Lemma analyze_sentiment_thresholds_witness :
  analyze_sentiment fixtures.toy_compound EmptyString = "neutral"
  /\ analyze_sentiment fixtures.toy_compound fixtures.text_rev001 = "positive"
  /\ analyze_sentiment fixtures.toy_compound fixtures.text_rev002 = "negative".
Proof.
  split; [| split].
  - destruct (analyze_sentiment_thresholds fixtures.toy_compound EmptyString)
      as [_ [_ [_ Hempty]]].
    apply Hempty. reflexivity.
  - destruct (analyze_sentiment_thresholds fixtures.toy_compound fixtures.text_rev001)
      as [[_ Hpositive] _].
    apply Hpositive. vm_compute. discriminate.
  - destruct (analyze_sentiment_thresholds fixtures.toy_compound fixtures.text_rev002)
      as [_ [[_ Hnegative] _]].
    apply Hnegative. vm_compute. discriminate.
Defined.

Section word_search_properties.
Variable is_word_char : ascii -> bool.

Local Abbreviation is_w := (is_w is_word_char).
Local Abbreviation boundary := (boundary is_word_char).
Local Abbreviation match_here := (match_here is_word_char).
Local Abbreviation search_from := (search_from is_word_char).

Lemma strip_prefix_app (keyword post : string) :
  strip_prefix keyword (keyword ++ post)%string = Some post.
Proof.
  induction keyword as [| a k IH]; simpl.
  - destruct post; reflexivity.
  - rewrite Ascii.eqb_refl. exact IH.
Qed.

Lemma strip_prefix_inv (keyword : string) :
  forall s rest, strip_prefix keyword s = Some rest -> s = (keyword ++ rest)%string.
Proof.
  induction keyword as [| a k IH]; intros s rest H.
  - destruct s; simpl in H; injection H as <-; reflexivity.
  - destruct s as [| b s']; simpl in H; [discriminate |].
    destruct (Ascii.eqb a b) eqn:E; [| discriminate].
    apply Ascii.eqb_eq in E. subst b. simpl. f_equal. now apply IH.
Qed.

Lemma match_here_spec (prev : option ascii) (keyword s : string) :
  match_here prev keyword s = true
  <-> exists post, s = (keyword ++ post)%string
                   /\ boundary prev (first_char s) = true
                   /\ boundary (last_char_or prev keyword) (first_char post) = true.
Proof.
  unfold main.match_here. split.
  - destruct (strip_prefix keyword s) as [rest |] eqn:E; [| discriminate].
    intros H. apply andb_true_iff in H. destruct H as [H1 H2].
    exists rest. split; [now apply strip_prefix_inv | split; assumption].
  - intros [post [-> [H1 H2]]]. rewrite strip_prefix_app.
    now rewrite H1, H2.
Qed.

(** The left-to-right search finds a match exactly when the text splits
    around an occurrence of the keyword that has a boundary on both sides. *)
Lemma search_from_spec (keyword s : string) :
  forall prev,
    search_from prev keyword s = true
    <-> exists pre post,
          s = (pre ++ keyword ++ post)%string
          /\ boundary (last_char_or prev pre) (first_char (keyword ++ post)%string) = true
          /\ boundary (last_char_or (last_char_or prev pre) keyword) (first_char post) = true.
Proof.
  induction s as [| c s' IH]; intros prev.
  - simpl. rewrite orb_false_r, match_here_spec. split.
    + intros [post [Hs [H1 H2]]]. exists EmptyString, post. simpl.
      rewrite <- Hs. repeat split; assumption.
    + intros [pre [post [Hs [H1 H2]]]].
      destruct pre; [| discriminate]. simpl in Hs, H1, H2.
      exists post. rewrite <- Hs in H1. repeat split; assumption.
  - simpl. rewrite orb_true_iff, match_here_spec, IH. split.
    + intros [[post [Hs [H1 H2]]] | [pre [post [Hs [H1 H2]]]]].
      * exists EmptyString, post. simpl. rewrite <- Hs. repeat split; assumption.
      * exists (String c pre), post. simpl. rewrite Hs. repeat split; assumption.
    + intros [pre [post [Hs [H1 H2]]]].
      destruct pre as [| c' pre'].
      * left. simpl in Hs, H1, H2. exists post. rewrite <- Hs in H1.
        repeat split; assumption.
      * right. simpl in Hs. injection Hs as -> ->. simpl in H1, H2.
        exists pre', post. repeat split; assumption.
Qed.

Lemma re_search_word_spec (keyword text_lower : string) :
  re_search_word is_word_char keyword text_lower = true
  <-> spec.whole_word_match is_word_char keyword text_lower.
Proof. unfold re_search_word, spec.whole_word_match. apply search_from_spec. Qed.

Lemma last_char_or_nonempty (c : ascii) (s : string) (p q : option ascii) :
  last_char_or p (String c s) = last_char_or q (String c s).
Proof. reflexivity. Qed.

(** A keyword that starts and ends with a word character only matches where
    its neighbours, if any, are not word characters. *)
Lemma whole_word_neighbours (keyword text_lower : string) :
  is_w (first_char keyword) = true ->
  is_w (last_char_or None keyword) = true ->
  spec.whole_word_match is_word_char keyword text_lower ->
  exists pre post,
    text_lower = (pre ++ keyword ++ post)%string
    /\ is_w (last_char_or None pre) = false
    /\ is_w (first_char post) = false.
Proof.
  intros Hfirst Hlast [pre [post [Hs [H1 H2]]]].
  exists pre, post. split; [exact Hs |].
  destruct keyword as [| c k]; [discriminate |].
  unfold main.boundary in H1, H2. simpl in H1.
  rewrite (last_char_or_nonempty c k _ None) in H2.
  simpl in Hfirst. rewrite Hfirst in H1. rewrite Hlast in H2.
  split.
  - destruct (is_w (last_char_or None pre)); [discriminate | reflexivity].
  - destruct (is_w (first_char post)); [discriminate | reflexivity].
Qed.
End word_search_properties.

(** Filtering a dictionary keeps its keys distinct. *)
Lemma filter_keeps_distinct_keys {K V : Type} (keep : K * V -> bool)
    (items : list (K * V)) :
  NoDup (map fst items) -> NoDup (map fst (filter keep items)).
Proof.
  induction items as [| [k v] rest IH]; simpl; intros Hkeys; [constructor |].
  apply NoDup_cons_iff in Hkeys. destruct Hkeys as [Hfresh Hrest].
  destruct (keep (k, v)); simpl; [| now apply IH].
  apply NoDup_cons_iff. split; [| now apply IH].
  intros Hin. apply Hfresh. apply in_map_iff in Hin.
  destruct Hin as [item [Hkey Hitem]]. apply filter_In in Hitem.
  apply in_map_iff. exists item. tauto.
Qed.

Lemma topic_labels_distinct : NoDup (map fst TOPIC_KEYWORDS).
Proof.
  simpl. repeat constructor; simpl; intuition discriminate.
Qed.

Section topic_properties.
Variable str_lower : string -> string.
Variable is_word_char : ascii -> bool.

Local Abbreviation keywords_loop := (keywords_loop is_word_char).
Local Abbreviation topics_loop := (topics_loop is_word_char).
Local Abbreviation extract_topics := (extract_topics str_lower is_word_char).

Lemma keywords_loop_existsb (keywords : list string) (text_lower : string) :
  keywords_loop keywords text_lower
  = existsb (fun keyword => re_search_word is_word_char keyword text_lower) keywords.
Proof.
  induction keywords as [| k rest IH]; simpl; [reflexivity |].
  rewrite IH. now destruct (re_search_word is_word_char k text_lower).
Qed.

Lemma topics_loop_filter (text_lower : string) (items : list (string * list string)) :
  forall matched_topics,
    topics_loop items text_lower matched_topics
    = matched_topics
      ++ map fst
           (filter (fun item =>
                      existsb (fun keyword => re_search_word is_word_char keyword text_lower)
                              (snd item))
                   items).
Proof.
  induction items as [| [topic keywords] rest IH]; intros acc; simpl.
  - now rewrite app_nil_r.
  - rewrite IH, keywords_loop_existsb.
    destruct (existsb _ keywords); simpl; [| reflexivity].
    now rewrite <- app_assoc.
Qed.

Lemma extract_topics_refines (text : string) :
  extract_topics text = spec.extract str_lower is_word_char text.
Proof.
  unfold main.extract_topics, spec.extract, spec.matching_topics.
  now rewrite topics_loop_filter.
Qed.

Lemma matching_topics_In (text_lower topic : string) :
  In topic (spec.matching_topics is_word_char text_lower)
  <-> exists keywords keyword,
        In (topic, keywords) TOPIC_KEYWORDS
        /\ In keyword keywords
        /\ spec.whole_word_match is_word_char keyword text_lower.
Proof.
  unfold spec.matching_topics. rewrite in_map_iff. split.
  - intros [[t keywords] [Ht Hin]]. simpl in Ht. subst t.
    apply filter_In in Hin. destruct Hin as [Hin Hex]. simpl in Hex.
    apply existsb_exists in Hex. destruct Hex as [keyword [Hk Hm]].
    exists keywords, keyword. split; [exact Hin | split; [exact Hk |]].
    now apply re_search_word_spec.
  - intros [keywords [keyword [Hin [Hk Hm]]]].
    exists (topic, keywords). split; [reflexivity |].
    apply filter_In. split; [exact Hin |]. simpl.
    apply existsb_exists. exists keyword. split; [exact Hk |].
    now apply re_search_word_spec.
Qed.

(** C4. [extract_topics] returns the topics of the dictionary that have a
    keyword matching the lower-cased text as a whole word, in dictionary
    order and each once; a topic is among them exactly when one of its
    keywords splits the lowered text with a word boundary on each side, so a
    keyword that starts and ends with a word character never matches next
    to another word character; and when no topic matches the result is the
    one label general, so the result is never empty. *)
Theorem extract_topics_whole_word (text : string) :
  extract_topics text = spec.extract str_lower is_word_char text
  /\ (forall topic,
        In topic (spec.matching_topics is_word_char (str_lower text))
        <-> exists keywords keyword,
              In (topic, keywords) TOPIC_KEYWORDS
              /\ In keyword keywords
              /\ spec.whole_word_match is_word_char keyword (str_lower text))
  /\ (forall keyword,
        is_w is_word_char (first_char keyword) = true ->
        is_w is_word_char (last_char_or None keyword) = true ->
        spec.whole_word_match is_word_char keyword (str_lower text) ->
        exists pre post,
          str_lower text = (pre ++ keyword ++ post)%string
          /\ is_w is_word_char (last_char_or None pre) = false
          /\ is_w is_word_char (first_char post) = false)
  /\ (spec.matching_topics is_word_char (str_lower text) = [] ->
        extract_topics text = ["general"])
  /\ (spec.matching_topics is_word_char (str_lower text) <> [] ->
        extract_topics text = spec.matching_topics is_word_char (str_lower text))
  /\ extract_topics text <> []
  /\ NoDup (extract_topics text).
Proof.
  rewrite extract_topics_refines. unfold spec.extract.
  split; [reflexivity |].
  split; [intros topic; apply matching_topics_In |].
  split; [intros keyword; apply whole_word_neighbours |].
  assert (Hnd : NoDup (spec.matching_topics is_word_char (str_lower text)))
    by (apply filter_keeps_distinct_keys, topic_labels_distinct).
  destruct (spec.matching_topics is_word_char (str_lower text)) as [| t rest].
  - split; [reflexivity | split; [congruence | split; [discriminate |]]].
    constructor; [intros [] | constructor].
  - split; [discriminate | split; [reflexivity | split; [discriminate | exact Hnd]]].
Qed.
End topic_properties.

(** The extractor, run on the two reviews of the test suite, on a text whose
    only keyword sits inside a longer word, on the empty text, and on an
    upper-case text with a two-word keyword. *)
Lemma extract_topics_whole_word_witness :
  extract_topics fixtures.ascii_lower fixtures.ascii_is_word fixtures.text_rev001
  = ["professionalism"; "efficiency"; "quality"; "customer_service"; "timeliness"]
  /\ extract_topics fixtures.ascii_lower fixtures.ascii_is_word fixtures.text_rev002
     = ["customer_service"; "communication"]
  /\ extract_topics fixtures.ascii_lower fixtures.ascii_is_word "Unprofessional"
     = ["general"]
  /\ extract_topics fixtures.ascii_lower fixtures.ascii_is_word EmptyString
     = ["general"]
  /\ extract_topics fixtures.ascii_lower fixtures.ascii_is_word "GREAT, and ON TIME!"
     = ["quality"; "timeliness"].
Proof.
  pose proof (extract_topics_whole_word fixtures.ascii_lower fixtures.ascii_is_word)
    as H.
  split; [| split; [| split; [| split]]]; cycle 4.
  - destruct (H "GREAT, and ON TIME!") as [_ [_ [_ [_ [Hsome _]]]]].
    rewrite Hsome; [reflexivity | vm_compute; discriminate].
  - destruct (H fixtures.text_rev001) as [_ [_ [_ [_ [Hsome _]]]]].
    rewrite Hsome; [reflexivity | vm_compute; discriminate].
  - destruct (H fixtures.text_rev002) as [_ [_ [_ [_ [Hsome _]]]]].
    rewrite Hsome; [reflexivity | vm_compute; discriminate].
  - destruct (H "Unprofessional") as [_ [_ [_ [Hnone _]]]].
    apply Hnone. reflexivity.
  - destruct (H EmptyString) as [_ [_ [_ [Hnone _]]]].
    apply Hnone. reflexivity.
Defined.

(** ** The reply generator *)

(** C7, as the code has it.  [generate_reply] returns the fixed apology when
    the service call raises, the text of the response when it has one
    (whatever that text is), the alternate text when only that can be read,
    and the second fixed message when neither can; both fixed messages are
    non-empty, so the reply is empty only when the service supplied an empty
    text. *)
Theorem generate_reply_fallbacks
    (generate_content : string -> ai_services.GenerateContentResult)
    (review_text : string) :
  (generate_content (ai_services.prompt review_text) = ai_services.ServiceRaises ->
     ai_services.generate_reply generate_content review_text
     = ai_services.SERVICE_ERROR_REPLY)
  /\ (forall response,
        generate_content (ai_services.prompt review_text)
        = ai_services.ServiceReturns response ->
        (forall t, ai_services.response_text response = Some t ->
                   ai_services.generate_reply generate_content review_text = t)
        /\ (forall t, ai_services.response_text response = None ->
                      ai_services.candidates0_text response = Some t ->
                      ai_services.generate_reply generate_content review_text = t)
        /\ (ai_services.response_text response = None ->
            ai_services.candidates0_text response = None ->
            ai_services.generate_reply generate_content review_text
            = ai_services.NO_TEXT_REPLY))
  /\ ai_services.SERVICE_ERROR_REPLY <> EmptyString
  /\ ai_services.NO_TEXT_REPLY <> EmptyString
  /\ (ai_services.generate_reply generate_content review_text = EmptyString ->
      exists response,
        generate_content (ai_services.prompt review_text)
        = ai_services.ServiceReturns response
        /\ (ai_services.response_text response = Some EmptyString
            \/ (ai_services.response_text response = None
                /\ ai_services.candidates0_text response = Some EmptyString))).
Proof.
  unfold ai_services.generate_reply.
  split; [intros ->; reflexivity |].
  split.
  { intros response ->. split; [| split].
    - intros t ->. reflexivity.
    - intros t -> ->. reflexivity.
    - intros -> ->. reflexivity. }
  split; [discriminate |]. split; [discriminate |].
  destruct (generate_content (ai_services.prompt review_text)) as [| response];
    [discriminate |].
  intros H. exists response. split; [reflexivity |].
  destruct (ai_services.response_text response) as [t |].
  - left. now subst t.
  - right. split; [reflexivity |].
    destruct (ai_services.candidates0_text response) as [t |];
      [now subst t | discriminate].
Qed.

(** The three paths of [generate_reply], run. *)
Lemma generate_reply_fallbacks_witness :
  ai_services.generate_reply (fun _ => ai_services.ServiceRaises) "Great service"
  = ai_services.SERVICE_ERROR_REPLY
  /\ ai_services.generate_reply
       (fun _ => ai_services.ServiceReturns (ai_services.mkResponse None None))
       "Great service"
     = ai_services.NO_TEXT_REPLY
  /\ ai_services.generate_reply (fixtures.gemini_says "Thank you!" 0) "Great service"
     = "Thank you!".
Proof.
  split; [| split].
  - apply (proj1 (generate_reply_fallbacks (fun _ => ai_services.ServiceRaises)
                    "Great service")).
    reflexivity.
  - destruct (generate_reply_fallbacks
                (fun _ => ai_services.ServiceReturns (ai_services.mkResponse None None))
                "Great service") as [_ [H _]].
    destruct (H (ai_services.mkResponse None None) eq_refl) as [_ [_ Hnone]].
    apply Hnone; reflexivity.
  - destruct (generate_reply_fallbacks (fixtures.gemini_says "Thank you!" 0)
                "Great service") as [_ [H _]].
    destruct (H (ai_services.mkResponse (Some "Thank you!") None) eq_refl)
      as [Htext _].
    apply Htext. reflexivity.
Defined.

(** C7 as stated fails: a response whose text is the empty string is returned
    as it is. *)
Lemma generate_reply_may_be_empty :
  ai_services.generate_reply (fixtures.gemini_says EmptyString 0) "Great service"
  = EmptyString.
Proof. reflexivity. Qed.

(** ** The reply cache *)

Lemma r_id_review_of_row (row : Row) : r_id (review_of_row row) = row_id row.
Proof. reflexivity. Qed.

Lemma find_review_get_all (d : ReviewDatabase) (i : string) :
  find_review (get_all_reviews_as_json d) i
  = option_map review_of_row (sql_select_by_id (working d) i).
Proof.
  unfold find_review, get_all_reviews_as_json, sql_select_by_id.
  induction (working d) as [| row t IH]; simpl; [reflexivity |].
  destruct (String.eqb (row_id row) i); [reflexivity | exact IH].
Qed.

Lemma has_id_select (t : Table) (i : string) :
  has_id t i = true <-> exists row, sql_select_by_id t i = Some row.
Proof.
  unfold has_id, sql_select_by_id.
  induction t as [| row t IH]; simpl.
  - split; [discriminate | intros [row H]; discriminate].
  - destruct (String.eqb (row_id row) i); simpl; [| exact IH].
    split; [intros _; now exists row | reflexivity].
Qed.

(** After the UPDATE the row selected by the id carries the new reply. *)
Lemma select_after_update (t : Table) (i s : string) (row : Row) :
  sql_select_by_id t i = Some row ->
  sql_select_by_id (fst (sql_update_reply t i s)) i
  = Some (mkRow (row_id row) (row_location row) (row_rating row) (row_date row)
                (row_text row) (row_sentiment row) (row_topics row) (Some s)).
Proof.
  unfold sql_select_by_id, sql_update_reply. simpl.
  induction t as [| r t IH]; simpl; [discriminate |].
  destruct (String.eqb (row_id r) i) eqn:E; simpl.
  - rewrite E. intros H. injection H as <-. reflexivity.
  - rewrite E. exact IH.
Qed.

Lemma select_after_write (d : ReviewDatabase) (i s : string) (row : Row) :
  sql_select_by_id (working d) i = Some row ->
  sql_select_by_id (working (snd (db_add_suggested_reply d i s))) i
  = Some (mkRow (row_id row) (row_location row) (row_rating row) (row_date row)
                (row_text row) (row_sentiment row) (row_topics row) (Some s)).
Proof.
  intros Hrow. pose proof (select_after_update _ i s row Hrow) as Hsel.
  unfold db_add_suggested_reply, add_suggested_reply.
  destruct (sql_update_reply (working d) i s) as [t n]. simpl in Hsel.
  destruct (Nat.eqb n 0); exact Hsel.
Qed.

(** [add_suggested_reply] returns [True] exactly when a row has the id. *)
Lemma add_suggested_reply_reports (d : ReviewDatabase) (i s : string) :
  fst (add_suggested_reply d i s) = has_id (working d) i.
Proof.
  unfold add_suggested_reply, sql_update_reply, has_id.
  induction (working d) as [| r t IH]; simpl; [reflexivity |].
  destruct (String.eqb (row_id r) i); simpl; [reflexivity |].
  destruct (Nat.eqb (List.length (filter (fun r0 => String.eqb (row_id r0) i) t)) 0);
    simpl in *; exact IH.
Qed.

Lemma get_suggested_reply_nonempty (d : ReviewDatabase) (i s : string) :
  get_suggested_reply d i = Some s -> s <> EmptyString.
Proof.
  unfold get_suggested_reply.
  destruct (sql_select_by_id (working d) i) as [row |]; [| discriminate].
  destruct (row_suggested_reply row) as [[| c s'] |]; simpl; try discriminate.
  intros H. injection H as <-. discriminate.
Qed.

(** The two ways through [generate_reply]: a hit and a miss. *)
Lemma generate_reply_hit
    (persist : ReviewDatabase -> string -> string -> outcome bool * ReviewDatabase)
    (w : World) (i s : string) (review : Review) :
  resolve_review w i = Some review ->
  get_suggested_reply (db w) i = Some s ->
  generate_reply_with persist w i
  = (Returned (mkReplyResponse i (r_text review) s), w).
Proof.
  intros Hr Hs. unfold generate_reply_with. rewrite Hr, Hs.
  pose proof (get_suggested_reply_nonempty _ _ _ Hs) as Hne.
  destruct s as [| c s']; [congruence | reflexivity].
Qed.

Lemma generate_reply_miss
    (persist : ReviewDatabase -> string -> string -> outcome bool * ReviewDatabase)
    (w : World) (i : string) (review : Review) :
  resolve_review w i = Some review ->
  get_suggested_reply (db w) i = None ->
  generate_reply_with persist w i
  = (Returned (mkReplyResponse i (r_text review)
                 (ai_services.generate_reply (gemini w (generate_calls w))
                    (r_text review))),
     mkWorld (reviews_db w)
       (snd (persist (db w) i
               (ai_services.generate_reply (gemini w (generate_calls w))
                  (r_text review))))
       (gemini w) (S (generate_calls w))).
Proof.
  intros Hr Hs. unfold generate_reply_with. rewrite Hr, Hs.
  unfold reply_generator_generate_reply. simpl.
  destruct (persist (db w) i _) as [ok d]. reflexivity.
Qed.

Lemma resolve_review_stored (w : World) (i : string) :
  has_id (working (db w)) i = true -> exists review, resolve_review w i = Some review.
Proof.
  intros H. apply has_id_select in H. destruct H as [row Hrow].
  unfold resolve_review.
  destruct (find_review (reviews_db w) i) as [review |]; [now exists review |].
  rewrite find_review_get_all, Hrow. now exists (review_of_row row).
Qed.

Lemma generate_reply_clean (w : World) (i : string) :
  clean (db w) -> clean (db (snd (generate_reply w i))).
Proof.
  intros Hclean. unfold generate_reply.
  destruct (resolve_review w i) as [review |] eqn:Hr;
    [| unfold generate_reply_with; rewrite Hr; exact Hclean].
  destruct (get_suggested_reply (db w) i) as [s |] eqn:Hs.
  - rewrite (generate_reply_hit _ w i s review Hr Hs). exact Hclean.
  - rewrite (generate_reply_miss _ w i review Hr Hs). simpl.
    unfold db_add_suggested_reply.
    pose proof (clean_add_suggested_reply (db w) i
                  (ai_services.generate_reply (gemini w (generate_calls w))
                     (r_text review))) as H.
    destruct (add_suggested_reply (db w) i _) as [ok d]. exact H.
Qed.

(** C8. When the review resolves, no reply is cached and the write-back of
    the fresh reply fails (the method returns [False], or a method put in its
    place raises), [generate_reply] still returns the fresh reply, after one
    call of the generator. *)
Theorem generate_reply_survives_failed_write
    (persist : ReviewDatabase -> string -> string -> outcome bool * ReviewDatabase)
    (w : World) (i : string) (review : Review) :
  resolve_review w i = Some review ->
  get_suggested_reply (db w) i = None ->
  fst (persist (db w) i
         (ai_services.generate_reply (gemini w (generate_calls w)) (r_text review)))
  <> Returned true ->
  fst (generate_reply_with persist w i)
  = Returned (mkReplyResponse i (r_text review)
                (ai_services.generate_reply (gemini w (generate_calls w))
                   (r_text review)))
  /\ generate_calls (snd (generate_reply_with persist w i)) = S (generate_calls w).
Proof.
  intros Hr Hs _. rewrite (generate_reply_miss persist w i review Hr Hs).
  split; reflexivity.
Qed.

(** A review that is in the list of the handler and not in the table: the
    UPDATE matches no row, [add_suggested_reply] returns [False], and the
    reply is returned all the same. *)
Lemma generate_reply_survives_failed_write_witness :
  let w := mkWorld [fixtures.sample_review "rev001" "Great"] fixtures.empty_db
             (fixtures.gemini_says "Thank you!") 0 in
  fst (add_suggested_reply (db w) "rev001" "Thank you!") = false
  /\ fst (generate_reply w "rev001")
     = Returned (mkReplyResponse "rev001" "Great" "Thank you!")
  /\ generate_calls (snd (generate_reply w "rev001")) = 1.
Proof.
  intros w. split; [reflexivity |].
  apply (generate_reply_survives_failed_write db_add_suggested_reply w "rev001"
           (fixtures.sample_review "rev001" "Great")).
  - reflexivity.
  - reflexivity.
  - discriminate.
Defined.

(** C9. A stored reply that is the empty string counts as no reply:
    [get_suggested_reply] returns [None], [/reply/{id}] answers 404, and
    [generate_reply] calls the generator and returns what it produced. *)
Theorem empty_stored_reply_is_absent (w : World) (i : string) (row : Row) :
  sql_select_by_id (working (db w)) i = Some row ->
  row_suggested_reply row = Some EmptyString ->
  get_suggested_reply (db w) i = None
  /\ get_reply w i = Raised (HTTPException 404 (no_reply_detail i))
  /\ exists review,
       resolve_review w i = Some review
       /\ fst (generate_reply w i)
          = Returned (mkReplyResponse i (r_text review)
                        (ai_services.generate_reply (gemini w (generate_calls w))
                           (r_text review)))
       /\ generate_calls (snd (generate_reply w i)) = S (generate_calls w).
Proof.
  intros Hrow Hempty.
  assert (Hnone : get_suggested_reply (db w) i = None).
  { unfold get_suggested_reply. rewrite Hrow, Hempty. reflexivity. }
  split; [exact Hnone |].
  split; [unfold get_reply; now rewrite Hnone |].
  destruct (resolve_review_stored w i) as [review Hr].
  { apply has_id_select. now exists row. }
  exists review. split; [exact Hr |].
  unfold generate_reply.
  rewrite (generate_reply_miss db_add_suggested_reply w i review Hr Hnone).
  split; reflexivity.
Qed.

(** A row whose reply is the empty string, run. *)
Lemma empty_stored_reply_is_absent_witness :
  let row := mkRow "rev001" "NY" 5 "2025-10-04" "Great" "positive" ["quality"]
               (Some EmptyString) in
  let w := mkWorld [] (mkDb [row] [row]) (fixtures.gemini_says "Thank you!") 0 in
  get_suggested_reply (db w) "rev001" = None
  /\ get_reply w "rev001" = Raised (HTTPException 404 (no_reply_detail "rev001"))
  /\ exists review,
       resolve_review w "rev001" = Some review
       /\ fst (generate_reply w "rev001")
          = Returned (mkReplyResponse "rev001" (r_text review)
                        (ai_services.generate_reply (gemini w (generate_calls w))
                           (r_text review)))
       /\ generate_calls (snd (generate_reply w "rev001")) = 1.
Proof.
  intros row w.
  apply (empty_stored_reply_is_absent w "rev001" row); reflexivity.
Defined.

(** C1, as the code has it.  For an id in the table: a stored non-empty reply
    is returned as it is, with nothing changed and so without a call of the
    generator; and [generate_reply] returns a reply, after which, when that
    reply is non-empty, a second call returns the same string, changes
    nothing, and the generator has run at most once over the two calls. *)
Theorem generate_reply_twice (w : World) (i : string) :
  has_id (working (db w)) i = true ->
  (forall row s,
      sql_select_by_id (working (db w)) i = Some row ->
      row_suggested_reply row = Some s ->
      s <> EmptyString ->
      exists review,
        resolve_review w i = Some review
        /\ generate_reply w i = (Returned (mkReplyResponse i (r_text review) s), w))
  /\ exists r1,
       fst (generate_reply w i) = Returned r1
       /\ (suggested_reply r1 <> EmptyString ->
           exists r2,
             generate_reply (snd (generate_reply w i)) i
             = (Returned r2, snd (generate_reply w i))
             /\ suggested_reply r2 = suggested_reply r1
             /\ generate_calls (snd (generate_reply w i)) <= S (generate_calls w)).
Proof.
  intros Hid.
  destruct (resolve_review_stored w i Hid) as [review Hr].
  split.
  - intros row s Hrow Hs Hne. exists review. split; [exact Hr |].
    apply generate_reply_hit; [exact Hr |].
    unfold get_suggested_reply. rewrite Hrow, Hs.
    destruct s; [congruence | reflexivity].
  - unfold generate_reply.
    destruct (get_suggested_reply (db w) i) as [s |] eqn:Hs.
    + rewrite (generate_reply_hit db_add_suggested_reply w i s review Hr Hs). simpl.
      eexists. split; [reflexivity |]. intros _.
      exists (mkReplyResponse i (r_text review) s).
      rewrite (generate_reply_hit db_add_suggested_reply w i s review Hr Hs).
      repeat split. lia.
    + rewrite (generate_reply_miss db_add_suggested_reply w i review Hr Hs). simpl.
      eexists. split; [reflexivity |]. simpl. intros Hne.
      set (s := ai_services.generate_reply (gemini w (generate_calls w))
                  (r_text review)) in *.
      set (w1 := mkWorld (reviews_db w) (snd (db_add_suggested_reply (db w) i s))
                   (gemini w) (S (generate_calls w))).
      apply has_id_select in Hid. destruct Hid as [row Hrow].
      pose proof (select_after_write (db w) i s row Hrow) as Hsel.
      assert (Hid1 : has_id (working (db w1)) i = true).
      { apply has_id_select. eexists. exact Hsel. }
      assert (Hs1 : get_suggested_reply (db w1) i = Some s).
      { unfold get_suggested_reply. simpl. rewrite Hsel. simpl.
        destruct s; [congruence | reflexivity]. }
      destruct (resolve_review_stored w1 i Hid1) as [review1 Hr1].
      exists (mkReplyResponse i (r_text review1) s).
      rewrite (generate_reply_hit db_add_suggested_reply w1 i s review1 Hr1 Hs1).
      repeat split. simpl. lia.
Qed.

(** A review stored without a reply, asked for twice: the generator runs
    once and both calls return its reply. *)
Lemma generate_reply_twice_witness :
  let w := mkWorld [] (fixtures.db_of [fixtures.sample_review "rev001" "Great"])
             (fixtures.gemini_says "Thank you!") 0 in
  exists r1 r2,
    fst (generate_reply w "rev001") = Returned r1
    /\ suggested_reply r1 = "Thank you!"
    /\ generate_reply (snd (generate_reply w "rev001")) "rev001"
       = (Returned r2, snd (generate_reply w "rev001"))
    /\ suggested_reply r2 = suggested_reply r1
    /\ generate_calls (snd (generate_reply w "rev001")) <= 1.
Proof.
  intros w.
  destruct (proj2 (generate_reply_twice w "rev001" eq_refl)) as [r1 [H1 H2]].
  assert (Hr1 : suggested_reply r1 = "Thank you!").
  { change (fst (generate_reply w "rev001"))
      with (Returned (mkReplyResponse "rev001" "Great" "Thank you!")) in H1.
    injection H1 as <-. reflexivity. }
  destruct H2 as [r2 [Hsecond [Hsame Hcalls]]].
  { rewrite Hr1. discriminate. }
  exists r1, r2. repeat (split; [assumption |]). exact Hcalls.
Defined.

(** C1 as stated fails: the first reply is the empty string, it is stored,
    the second call does not take it for a reply and runs the generator
    again, which answers with another text. *)
Lemma generate_reply_twice_differs :
  has_id (working (fixtures.db_of [fixtures.sample_review "rev001" "Great"]))
    "rev001" = true
  /\ fst (generate_reply
            (mkWorld [] (fixtures.db_of [fixtures.sample_review "rev001" "Great"])
               fixtures.gemini_empty_first 0) "rev001")
     = Returned (mkReplyResponse "rev001" "Great" EmptyString)
  /\ fst (generate_reply
            (snd (generate_reply
                    (mkWorld [] (fixtures.db_of [fixtures.sample_review "rev001" "Great"])
                       fixtures.gemini_empty_first 0) "rev001")) "rev001")
     = Returned (mkReplyResponse "rev001" "Great" "Thank you!")
  /\ generate_calls
       (snd (generate_reply
               (snd (generate_reply
                       (mkWorld [] (fixtures.db_of [fixtures.sample_review "rev001" "Great"])
                          fixtures.gemini_empty_first 0) "rev001")) "rev001"))
     = 2.
Proof. repeat split. Qed.

(** ** The similarity finder *)

Import search_service.

Lemma set_item_length (v : list Q) (idx : nat) (x : Q) :
  List.length (set_item v idx x) = List.length v.
Proof.
  revert idx. induction v as [| y v IH]; intros [| idx]; simpl; auto.
Qed.

Lemma set_item_same (v : list Q) (idx : nat) (x d : Q) :
  idx < List.length v -> nth idx (set_item v idx x) d = x.
Proof.
  revert idx. induction v as [| y v IH]; intros [| idx] H; simpl in *; try lia.
  - reflexivity.
  - apply IH. lia.
Qed.

Lemma set_item_other (v : list Q) (idx i : nat) (x d : Q) :
  i <> idx -> nth i (set_item v idx x) d = nth i v d.
Proof.
  revert idx i. induction v as [| y v IH]; intros [| idx] [| i] H; simpl;
    try reflexivity; try congruence.
  apply IH. congruence.
Qed.

(** What the scanning loop leaves in [target_idx]: the value it started with
    when no review has the id, the last position that has it otherwise. *)
Lemma scan_target_spec (review_id : string) (all_reviews : list Review) :
  forall idx acc,
    (scan_target review_id all_reviews idx acc = acc
     /\ main.id_in all_reviews review_id = false)
    \/ (exists t,
          scan_target review_id all_reviews idx acc = Some (idx + t)
          /\ t < List.length all_reviews
          /\ nth t (map r_id all_reviews) EmptyString = review_id
          /\ main.id_in all_reviews review_id = true
          /\ forall j, t < j < List.length all_reviews ->
                       nth j (map r_id all_reviews) EmptyString <> review_id).
Proof.
  induction all_reviews as [| r rest IH]; intros idx acc; simpl.
  - left. split; reflexivity.
  - destruct (IH (S idx) (if String.eqb (r_id r) review_id then Some idx else acc))
      as [[Hscan Hnone] | [t [Hscan [Hlt [Hnth [Hin Hlast]]]]]].
    + destruct (String.eqb (r_id r) review_id) eqn:E.
      * right. exists 0. rewrite Hscan, Nat.add_0_r.
        split; [reflexivity |]. split; [lia |].
        split; [now apply String.eqb_eq |]. split; [reflexivity |].
        intros [| j] Hj; [lia |]. simpl.
        intro Hc. unfold main.id_in in Hnone.
        assert (Hex : existsb (fun r0 => String.eqb (r_id r0) review_id) rest = true).
        { apply existsb_exists. exists (nth j rest r).
          split; [apply nth_In; lia |].
          apply String.eqb_eq. rewrite <- Hc.
          rewrite <- (map_nth r_id rest r j). apply nth_indep.
          rewrite length_map. lia. }
        congruence.
      * left. split; [exact Hscan | exact Hnone].
    + right. exists (S t). rewrite Hscan.
      split; [f_equal; lia |]. split; [lia |]. split; [exact Hnth |].
      split; [unfold main.id_in in *; simpl; rewrite Hin; apply orb_true_r |].
      intros [| j] Hj; [lia |]. simpl. apply Hlast. lia.
Qed.

Lemma StronglySorted_app_inv {A : Type} (R : A -> A -> Prop) (l1 l2 : list A) :
  StronglySorted R (l1 ++ l2) ->
  StronglySorted R l2 /\ (forall a b, In a l1 -> In b l2 -> R a b).
Proof.
  induction l1 as [| x l1 IH]; simpl; intros H.
  - split; [exact H | intros a b []].
  - inversion H as [| y l Hs Hall]; subst.
    destruct (IH Hs) as [H2 Hcross]. split; [exact H2 |].
    intros a b [<- | Ha] Hb.
    + rewrite Forall_forall in Hall. apply Hall. apply in_or_app. now right.
    + now apply Hcross.
Qed.

Lemma StronglySorted_snoc {A : Type} (R : A -> A -> Prop) (l : list A) (x : A) :
  StronglySorted R l -> (forall y, In y l -> R y x) -> StronglySorted R (l ++ [x]).
Proof.
  induction l as [| y l IH]; simpl; intros Hs Hx.
  - repeat constructor.
  - inversion Hs as [| z l' Hs' Hall]; subst. constructor.
    + apply IH; [exact Hs' | intros z Hz; apply Hx; now right].
    + apply Forall_app. split; [exact Hall |].
      constructor; [apply Hx; now left | constructor].
Qed.

Lemma StronglySorted_rev {A : Type} (R : A -> A -> Prop) (l : list A) :
  StronglySorted R l -> StronglySorted (fun a b => R b a) (rev l).
Proof.
  induction l as [| x l IH]; simpl; intros Hs; [constructor |].
  inversion Hs as [| y l' Hs' Hall]; subst.
  apply StronglySorted_snoc; [now apply IH |].
  intros y Hy. apply in_rev in Hy. rewrite Forall_forall in Hall. now apply Hall.
Qed.

Lemma NoDup_app_disjoint {A : Type} (l1 l2 : list A) :
  NoDup (l1 ++ l2) -> forall a, In a l1 -> ~ In a l2.
Proof.
  induction l1 as [| x l1 IH]; simpl; intros H a Ha; [destruct Ha |].
  inversion H as [| y l Hnotin Hnd]; subst.
  destruct Ha as [<- | Ha].
  - intro Hin. apply Hnotin. apply in_or_app. now right.
  - now apply IH.
Qed.

Lemma StronglySorted_agree {A : Type} (R R' : A -> A -> Prop) (l : list A) :
  (forall a b, In a l -> In b l -> R a b -> R' a b) ->
  StronglySorted R l -> StronglySorted R' l.
Proof.
  induction l as [| x l IH]; intros Hagree Hs; [constructor |].
  inversion Hs as [| y l' Hs' Hall]; subst. constructor.
  - apply IH; [| exact Hs']. intros a b Ha Hb. apply Hagree; now right.
  - rewrite Forall_forall in *. intros b Hb.
    apply Hagree; [now left | now right | now apply Hall].
Qed.

(** The indices kept by [np.argsort(similarities)[-k:][::-1]] once the
    target's entry is -1 and every other entry is at least 0: [k] distinct
    positions, none the target, in descending order of similarity, and no
    position left out beats one that is kept. *)
Lemma top_indices (argsort : list Q -> list nat) (sims : list Q) (target k : nat) :
  (forall v, Permutation (argsort v) (seq 0 (List.length v))) ->
  (forall v, StronglySorted (fun i j => (nth i v 0 <= nth j v 0)%Q) (argsort v)) ->
  (forall x, In x sims -> (0 <= x)%Q) ->
  target < List.length sims ->
  k < List.length sims ->
  let indices := rev (last_k k (argsort (set_item sims target (-1)%Q))) in
  List.length indices = k
  /\ NoDup indices
  /\ (forall i, In i indices -> i < List.length sims /\ i <> target)
  /\ StronglySorted (fun i j => (nth j sims 0 <= nth i sims 0)%Q) indices
  /\ (forall j, j < List.length sims -> j <> target -> ~ In j indices ->
        forall i, In i indices -> (nth j sims 0 <= nth i sims 0)%Q).
Proof.
  intros Hperm Hsorted Hnonneg Htarget Hk indices.
  set (v := set_item sims target (-1)%Q) in *.
  set (n := List.length sims) in *.
  assert (Hlenv : List.length v = n) by apply set_item_length.
  pose proof (Hperm v) as P. rewrite Hlenv in P.
  assert (Hlen : List.length (argsort v) = n)
    by (rewrite (Permutation_length P); apply length_seq).
  assert (Hnd : NoDup (argsort v))
    by (apply (Permutation_NoDup (Permutation_sym P)), seq_NoDup).
  assert (Hin : forall i, In i (argsort v) <-> i < n).
  { intros i. split; intros H.
    - apply (Permutation_in _ P) in H. apply in_seq in H. lia.
    - apply (Permutation_in _ (Permutation_sym P)). apply in_seq. lia. }
  pose proof (Hsorted v) as Hs.
  unfold indices, last_k. rewrite Hlen.
  rewrite <- (firstn_skipn (n - k) (argsort v)) in Hnd, Hs, Hin.
  set (kept := skipn (n - k) (argsort v)) in *.
  set (dropped := firstn (n - k) (argsort v)) in *.
  assert (Hkept_len : List.length kept = k)
    by (unfold kept; rewrite length_skipn, Hlen; lia).
  assert (Hdropped_len : List.length dropped = n - k)
    by (unfold dropped; rewrite length_firstn, Hlen; lia).
  destruct (StronglySorted_app_inv _ _ _ Hs) as [Hs_kept Hcross].
  pose proof (NoDup_app_disjoint _ _ Hnd) as Hdisj.
  assert (Hval : forall i, i < n -> i <> target -> nth i v 0%Q = nth i sims 0%Q).
  { intros i _ Hne. unfold v. now apply set_item_other. }
  assert (Hpos : forall i, i < n -> (0 <= nth i sims 0)%Q).
  { intros i Hi. apply Hnonneg. now apply nth_In. }
  assert (Hnot : ~ In target kept).
  { intros Hin_t.
    destruct dropped as [| a rest] eqn:Ed; [simpl in Hdropped_len; lia |].
    assert (Ha : In a (a :: rest)) by now left.
    assert (Han : a < n) by (apply Hin, in_or_app; now left).
    assert (Hne : a <> target) by (intros ->; now apply (Hdisj target Ha)).
    pose proof (Hcross a target Ha Hin_t) as Hle. simpl in Hle.
    rewrite (Hval a Han Hne) in Hle.
    unfold v in Hle. rewrite set_item_same in Hle by exact Htarget.
    pose proof (Hpos a Han). lra. }
  assert (Hkept : forall i, In i kept -> i < n /\ i <> target).
  { intros i Hi. split; [apply Hin, in_or_app; now right |].
    intros ->. now apply Hnot. }
  split; [now rewrite length_rev |].
  split; [now apply NoDup_rev, (NoDup_app_remove_l _ _ Hnd) |].
  split; [intros i Hi; apply Hkept; now apply in_rev |].
  split.
  - apply StronglySorted_rev in Hs_kept.
    revert Hs_kept. apply StronglySorted_agree. intros a b Ha Hb H.
    apply in_rev in Ha, Hb. simpl in H.
    destruct (Hkept a Ha) as [Ha1 Ha2]. destruct (Hkept b Hb) as [Hb1 Hb2].
    now rewrite (Hval a Ha1 Ha2), (Hval b Hb1 Hb2) in H.
  - intros j Hj Hne Hout i Hi. apply in_rev in Hi.
    assert (Hjd : In j dropped).
    { destruct (in_app_or _ _ _ (proj2 (Hin j) Hj)) as [H | H]; [exact H |].
      exfalso. apply Hout. now apply in_rev in H. }
    pose proof (Hcross j i Hjd Hi) as Hle. simpl in Hle.
    destruct (Hkept i Hi) as [Hi1 Hi2].
    now rewrite (Hval j Hj Hne), (Hval i Hi1 Hi2) in Hle.
Qed.

Section finder_properties.
Variable tfidf_cosine : list string -> nat -> outcome (list Q).
Variable argsort : list Q -> list nat.

(** What the finder relies on from scikit-learn and numpy: when the
    vectoriser returns, one similarity per text, none negative (TF-IDF
    vectors have no negative entry), and an [argsort] that returns the
    positions in ascending order of value. *)
Hypothesis cosine_length :
  forall texts t sims,
    tfidf_cosine texts t = Returned sims -> List.length sims = List.length texts.
Hypothesis cosine_nonneg :
  forall texts t sims x,
    tfidf_cosine texts t = Returned sims -> In x sims -> (0 <= x)%Q.
Hypothesis argsort_perm :
  forall v, Permutation (argsort v) (seq 0 (List.length v)).
Hypothesis argsort_sorted :
  forall v, StronglySorted (fun i j => (nth i v 0 <= nth j v 0)%Q) (argsort v).

Local Abbreviation find_similar_reviews := (find_similar_reviews tfidf_cosine argsort).

Lemma find_similar_reviews_shape (review_id : string) (db : ReviewDatabase)
    (reviews_db : list Review) :
  2 <= List.length (load_all_reviews db reviews_db) ->
  main.id_in (load_all_reviews db reviews_db) review_id = true ->
  exists target,
    target < List.length (load_all_reviews db reviews_db)
    /\ nth target (map r_id (load_all_reviews db reviews_db)) EmptyString = review_id
    /\ (forall j, target < j < List.length (load_all_reviews db reviews_db) ->
          nth j (map r_id (load_all_reviews db reviews_db)) EmptyString <> review_id)
    /\ (forall e,
          tfidf_cosine (map r_text (load_all_reviews db reviews_db)) target = Raised e ->
          find_similar_reviews review_id db reviews_db = Raised e)
    /\ (forall sims,
          tfidf_cosine (map r_text (load_all_reviews db reviews_db)) target
          = Returned sims ->
          exists indices,
            find_similar_reviews review_id db reviews_db
            = Returned (map (fun idx => nth idx (map r_id (load_all_reviews db reviews_db))
                                          EmptyString) indices)
            /\ List.length indices
               = Nat.min 2 (List.length (load_all_reviews db reviews_db) - 1)
            /\ NoDup indices
            /\ (forall i, In i indices ->
                  i < List.length (load_all_reviews db reviews_db) /\ i <> target)
            /\ StronglySorted (fun i j => (nth j sims 0 <= nth i sims 0)%Q) indices
            /\ (forall j, j < List.length (load_all_reviews db reviews_db) ->
                  j <> target -> ~ In j indices ->
                  forall i, In i indices -> (nth j sims 0 <= nth i sims 0)%Q)).
Proof.
  set (all_reviews := load_all_reviews db reviews_db).
  intros Hsize Hpresent.
  unfold search_service.find_similar_reviews. fold all_reviews.
  destruct (Nat.ltb_spec (List.length all_reviews) 2) as [Hlt | _]; [lia |].
  destruct (scan_target_spec review_id all_reviews 0 None)
    as [[_ Hnone] | [t [Hscan [Hlt [Hnth [_ Hlast]]]]]]; [congruence |].
  simpl in Hscan. rewrite Hscan.
  exists t. split; [exact Hlt |]. split; [exact Hnth |]. split; [exact Hlast |].
  split.
  - intros e He. now rewrite He.
  - intros sims Hsims. rewrite Hsims.
    assert (Hlen : List.length sims = List.length all_reviews)
      by (rewrite (cosine_length _ _ _ Hsims); apply length_map).
    destruct (top_indices argsort sims t (Nat.min 2 (List.length all_reviews - 1)))
      as [H1 [H2 [H3 [H4 H5]]]]; try assumption.
    + intros x. apply (cosine_nonneg _ _ _ x Hsims).
    + lia.
    + lia.
    + rewrite Hlen in H3, H5.
      exists (rev (last_k (Nat.min 2 (List.length all_reviews - 1))
                     (argsort (set_item sims t (-1)%Q)))).
      repeat (split; [assumption || reflexivity |]). exact H5.
Qed.

Lemma distinct_ids_at_distinct_positions (ids : list string) (target : nat)
    (indices : list nat) :
  NoDup ids -> NoDup indices -> target < List.length ids ->
  (forall i, In i indices -> i < List.length ids /\ i <> target) ->
  NoDup (map (fun idx => nth idx ids EmptyString) indices)
  /\ forall x, In x (map (fun idx => nth idx ids EmptyString) indices) ->
               x <> nth target ids EmptyString /\ In x ids.
Proof.
  intros Hids Hnd Ht Hrange.
  pose proof (proj1 (NoDup_nth ids EmptyString) Hids) as Hinj.
  split.
  - apply NoDup_map_NoDup_ForallPairs; [| exact Hnd].
    intros a b Ha Hb Heq. apply Hinj; [apply Hrange, Ha | apply Hrange, Hb | exact Heq].
  - intros x Hx. apply in_map_iff in Hx. destruct Hx as [i [<- Hi]].
    destruct (Hrange i Hi) as [Hlt Hne]. split.
    + intros Heq. apply Hne. now apply Hinj.
    + now apply nth_In.
Qed.

(** C6, as the code has it.  A corpus of fewer than two reviews gives the
    empty list; otherwise an id that no review has raises [ValueError]; and
    otherwise, the target being the last position that holds the query id,
    an error of the vectoriser is raised as it is, and when the vectoriser
    returns the result has exactly min(2, n - 1) ids, read at distinct
    positions other than the target, in descending order of similarity, no
    position left out being more similar than one returned; when the ids of
    the corpus are pairwise distinct the query id is not among them. *)
Theorem find_similar_reviews_contract (review_id : string) (db : ReviewDatabase)
    (reviews_db : list Review) :
  (List.length (load_all_reviews db reviews_db) < 2 ->
     find_similar_reviews review_id db reviews_db = Returned [])
  /\ (2 <= List.length (load_all_reviews db reviews_db) ->
      main.id_in (load_all_reviews db reviews_db) review_id = false ->
      find_similar_reviews review_id db reviews_db
      = Raised (ValueError (not_found_message review_id)))
  /\ (2 <= List.length (load_all_reviews db reviews_db) ->
      main.id_in (load_all_reviews db reviews_db) review_id = true ->
      exists target,
        target < List.length (load_all_reviews db reviews_db)
        /\ nth target (map r_id (load_all_reviews db reviews_db)) EmptyString = review_id
        /\ (forall j, target < j < List.length (load_all_reviews db reviews_db) ->
              nth j (map r_id (load_all_reviews db reviews_db)) EmptyString
              <> review_id)
        /\ (forall e,
              tfidf_cosine (map r_text (load_all_reviews db reviews_db)) target
              = Raised e ->
              find_similar_reviews review_id db reviews_db = Raised e)
        /\ (forall sims,
              tfidf_cosine (map r_text (load_all_reviews db reviews_db)) target
              = Returned sims ->
              exists indices,
                find_similar_reviews review_id db reviews_db
                = Returned (map (fun idx =>
                                   nth idx (map r_id (load_all_reviews db reviews_db))
                                       EmptyString) indices)
                /\ List.length
                     (map (fun idx =>
                             nth idx (map r_id (load_all_reviews db reviews_db))
                                 EmptyString) indices)
                   = Nat.min 2 (List.length (load_all_reviews db reviews_db) - 1)
                /\ NoDup indices
                /\ (forall i, In i indices ->
                      i < List.length (load_all_reviews db reviews_db) /\ i <> target)
                /\ StronglySorted (fun i j => (nth j sims 0 <= nth i sims 0)%Q) indices
                /\ (forall j, j < List.length (load_all_reviews db reviews_db) ->
                      j <> target -> ~ In j indices ->
                      forall i, In i indices -> (nth j sims 0 <= nth i sims 0)%Q)
                /\ (NoDup (map r_id (load_all_reviews db reviews_db)) ->
                    ~ In review_id
                        (map (fun idx =>
                                nth idx (map r_id (load_all_reviews db reviews_db))
                                    EmptyString) indices)))).
Proof.
  split; [| split].
  - intros Hsmall. unfold search_service.find_similar_reviews.
    destruct (Nat.ltb_spec (List.length (load_all_reviews db reviews_db)) 2);
      [reflexivity | lia].
  - intros Hsize Habsent. unfold search_service.find_similar_reviews.
    destruct (Nat.ltb_spec (List.length (load_all_reviews db reviews_db)) 2);
      [lia |].
    destruct (scan_target_spec review_id (load_all_reviews db reviews_db) 0 None)
      as [[Hscan _] | [t [_ [_ [_ [Hin _]]]]]]; [| congruence].
    rewrite Hscan. reflexivity.
  - intros Hsize Hpresent.
    destruct (find_similar_reviews_shape review_id db reviews_db Hsize Hpresent)
      as [target [Ht [Hid [Hlast [Hraise Hreturn]]]]].
    exists target.
    split; [exact Ht |]. split; [exact Hid |]. split; [exact Hlast |].
    split; [exact Hraise |].
    intros sims Hsims.
    destruct (Hreturn sims Hsims)
      as [indices [Hres [Hlen [Hnd [Hrange [Hsorted Htop]]]]]].
    exists indices.
    split; [exact Hres |]. split; [now rewrite length_map |].
    repeat (split; [assumption |]).
    intros Hids Hin.
    rewrite <- (length_map r_id) in Ht.
    assert (Hrange' : forall i, In i indices ->
              i < List.length (map r_id (load_all_reviews db reviews_db)) /\ i <> target)
      by (intros i Hi; rewrite length_map; now apply Hrange).
    destruct (distinct_ids_at_distinct_positions _ target indices Hids Hnd Ht Hrange')
      as [_ Hother].
    destruct (Hother review_id Hin) as [Hne _]. congruence.
Qed.

(** C10, as the code has it.  For a corpus of at least two reviews that has
    the query id and that the vectoriser accepts, the finder returns ids
    read at pairwise distinct positions of the corpus, none of them the
    position of the query (the last one that holds the query id); when the
    ids of the corpus are pairwise distinct, the returned ids are pairwise
    distinct and each is the id of a review of the corpus other than the
    query. *)
Theorem find_similar_reviews_distinct (review_id : string) (db : ReviewDatabase)
    (reviews_db : list Review) :
  spec.vectoriser_returns tfidf_cosine (map r_text (load_all_reviews db reviews_db)) ->
  2 <= List.length (load_all_reviews db reviews_db) ->
  main.id_in (load_all_reviews db reviews_db) review_id = true ->
  exists similar_review_ids,
    find_similar_reviews review_id db reviews_db = Returned similar_review_ids
    /\ (exists target indices,
          similar_review_ids
          = map (fun idx => nth idx (map r_id (load_all_reviews db reviews_db))
                              EmptyString) indices
          /\ nth target (map r_id (load_all_reviews db reviews_db)) EmptyString
             = review_id
          /\ (forall j, target < j < List.length (load_all_reviews db reviews_db) ->
                nth j (map r_id (load_all_reviews db reviews_db)) EmptyString
                <> review_id)
          /\ NoDup indices
          /\ forall i, In i indices ->
               i < List.length (load_all_reviews db reviews_db) /\ i <> target)
    /\ (NoDup (map r_id (load_all_reviews db reviews_db)) ->
        NoDup similar_review_ids
        /\ forall x, In x similar_review_ids ->
             x <> review_id
             /\ exists review, In review (load_all_reviews db reviews_db)
                               /\ r_id review = x).
Proof.
  intros Haccepts Hsize Hpresent.
  destruct (find_similar_reviews_shape review_id db reviews_db Hsize Hpresent)
    as [target [Ht [Hid [Hlast [_ Hreturn]]]]].
  destruct (Haccepts target) as [sims Hsims].
  destruct (Hreturn sims Hsims) as [indices [Hres [_ [Hnd [Hrange _]]]]].
  eexists. split; [exact Hres |]. split.
  - exists target, indices. repeat (split; [assumption || reflexivity |]). exact Hrange.
  - intros Hids.
    rewrite <- (length_map r_id) in Ht.
    assert (Hrange' : forall i, In i indices ->
              i < List.length (map r_id (load_all_reviews db reviews_db)) /\ i <> target)
      by (intros i Hi; rewrite length_map; now apply Hrange).
    destruct (distinct_ids_at_distinct_positions _ target indices Hids Hnd Ht Hrange')
      as [Hdistinct Hother].
    split; [exact Hdistinct |].
    intros x Hx. destruct (Hother x Hx) as [Hne Hin]. split; [congruence |].
    apply in_map_iff in Hin. destruct Hin as [review [Hr Hin]]. now exists review.
Qed.
End finder_properties.

(** *** The insertion-sort argsort and the toy similarity meet the
    requirements above *)

Lemma insert_index_perm (v : list Q) (i : nat) (sorted : list nat) :
  Permutation (fixtures.insert_index v i sorted) (i :: sorted).
Proof.
  induction sorted as [| j rest IH]; simpl; [reflexivity |].
  destruct (Qle_bool (nth i v 0%Q) (nth j v 0%Q)); [reflexivity |].
  rewrite IH. apply perm_swap.
Qed.

Lemma insertion_argsort_perm (v : list Q) :
  Permutation (fixtures.insertion_argsort v) (seq 0 (List.length v)).
Proof.
  unfold fixtures.insertion_argsort.
  induction (seq 0 (List.length v)) as [| i l IH]; simpl; [reflexivity |].
  rewrite insert_index_perm. now apply perm_skip.
Qed.

Lemma insert_index_sorted (v : list Q) (i : nat) (sorted : list nat) :
  StronglySorted (fun a b => (nth a v 0 <= nth b v 0)%Q) sorted ->
  StronglySorted (fun a b => (nth a v 0 <= nth b v 0)%Q)
    (fixtures.insert_index v i sorted).
Proof.
  induction sorted as [| j rest IH]; simpl; intros Hs.
  - repeat constructor.
  - inversion Hs as [| x l Hs' Hall]; subst.
    destruct (Qle_bool (nth i v 0%Q) (nth j v 0%Q)) eqn:E.
    + apply Qle_bool_iff in E. constructor; [exact Hs |].
      constructor; [exact E |].
      rewrite Forall_forall in *. intros b Hb.
      eapply Qle_trans; [exact E | now apply Hall].
    + assert (Hji : (nth j v 0 <= nth i v 0)%Q).
      { apply Qlt_le_weak, Qnot_le_lt. intro H. apply Qle_bool_iff in H. congruence. }
      constructor; [now apply IH |].
      rewrite Forall_forall in *. intros b Hb.
      apply (Permutation_in _ (insert_index_perm v i rest)) in Hb.
      destruct Hb as [<- | Hb]; [exact Hji | now apply Hall].
Qed.

Lemma insertion_argsort_sorted (v : list Q) :
  StronglySorted (fun a b => (nth a v 0 <= nth b v 0)%Q) (fixtures.insertion_argsort v).
Proof.
  unfold fixtures.insertion_argsort.
  induction (seq 0 (List.length v)) as [| i l IH]; simpl; [constructor |].
  now apply insert_index_sorted.
Qed.

Lemma toy_cosine_length (texts : list string) (t : nat) (sims : list Q) :
  fixtures.toy_cosine texts t = Returned sims ->
  List.length sims = List.length texts.
Proof.
  unfold fixtures.toy_cosine.
  destruct (forallb (fun x => String.eqb x EmptyString) texts); [discriminate |].
  intros H. injection H as <-. apply length_map.
Qed.

Lemma toy_cosine_nonneg (texts : list string) (t : nat) (sims : list Q) (x : Q) :
  fixtures.toy_cosine texts t = Returned sims -> In x sims -> (0 <= x)%Q.
Proof.
  unfold fixtures.toy_cosine.
  destruct (forallb (fun y => String.eqb y EmptyString) texts); [discriminate |].
  intros H. injection H as <-. intros Hin. apply in_map_iff in Hin.
  destruct Hin as [s [<- _]].
  destruct (String.eqb s (nth t texts EmptyString)); discriminate.
Qed.

(** The finder, run on a one-review corpus, on an unknown id, on a corpus
    of empty texts and on a three-review corpus with distinct ids. *)
Lemma find_similar_reviews_contract_witness :
  let corpus := [fixtures.sample_review "rev001" "Great service";
                 fixtures.sample_review "rev002" "Slow service";
                 fixtures.sample_review "rev003" "Great service"] in
  find_similar_reviews fixtures.toy_cosine fixtures.insertion_argsort
    "rev001" fixtures.empty_db [fixtures.sample_review "rev001" "Great service"]
  = Returned []
  /\ find_similar_reviews fixtures.toy_cosine fixtures.insertion_argsort
       "rev009" (fixtures.db_of corpus) []
     = Raised (ValueError (not_found_message "rev009"))
  /\ exists target,
       (forall e,
           fixtures.toy_cosine [EmptyString; EmptyString] target = Raised e ->
           find_similar_reviews fixtures.toy_cosine fixtures.insertion_argsort
             "rev001" fixtures.empty_db
             [fixtures.sample_review "rev001" EmptyString;
              fixtures.sample_review "rev002" EmptyString]
           = Raised e)
       /\ exists target' indices,
            find_similar_reviews fixtures.toy_cosine fixtures.insertion_argsort
              "rev001" (fixtures.db_of corpus) []
            = Returned (map (fun idx => nth idx (map r_id corpus) EmptyString) indices)
            /\ List.length indices = 2
            /\ ~ In target' indices
            /\ ~ In "rev001"
                 (map (fun idx => nth idx (map r_id corpus) EmptyString) indices).
Proof.
  intros corpus.
  pose proof (find_similar_reviews_contract fixtures.toy_cosine
                fixtures.insertion_argsort toy_cosine_length toy_cosine_nonneg
                insertion_argsort_perm insertion_argsort_sorted) as H.
  split; [| split].
  - apply (proj1 (H "rev001" fixtures.empty_db
                    [fixtures.sample_review "rev001" "Great service"])).
    simpl. lia.
  - destruct (H "rev009" (fixtures.db_of corpus) []) as [_ [Habsent _]].
    apply Habsent; [simpl; lia | reflexivity].
  - destruct (H "rev001" fixtures.empty_db
                [fixtures.sample_review "rev001" EmptyString;
                 fixtures.sample_review "rev002" EmptyString]) as [_ [_ Hempty]].
    destruct Hempty as [target [_ [_ [_ [Hraise _]]]]];
      [simpl; lia | reflexivity |].
    exists target. split; [exact Hraise |].
    destruct (H "rev001" (fixtures.db_of corpus) []) as [_ [_ Hpresent]].
    destruct Hpresent as [target' [_ [_ [_ [_ Hreturn]]]]];
      [simpl; lia | reflexivity |].
    destruct (Hreturn _ eq_refl)
      as [indices [Hres [Hlen [_ [Hrange [_ [_ Hnot]]]]]]].
    exists target', indices.
    split; [exact Hres |].
    split; [rewrite length_map in Hlen; exact Hlen |].
    split; [intros Hin; now destruct (Hrange target' Hin) |].
    apply Hnot. simpl. repeat constructor; simpl; intuition discriminate.
Defined.

(** C6 as stated fails, in two ways.  The list of the handler holds the
    query id twice (a batch that repeats an id leaves it so, the table
    staying empty): the finder leaves out the second of the two positions
    and returns the first, which has the same text, and the third, so the
    query id comes back.  And a corpus of two reviews with empty texts, one
    of them the query: the vectoriser raises and no id is returned. *)
Lemma find_similar_reviews_breaks_contract :
  find_similar_reviews fixtures.toy_cosine fixtures.insertion_argsort
    "rev001" fixtures.empty_db
    [fixtures.sample_review "rev001" "Great service";
     fixtures.sample_review "rev001" "Great service";
     fixtures.sample_review "rev002" "Slow service"]
  = Returned ["rev001"; "rev002"]
  /\ find_similar_reviews fixtures.toy_cosine fixtures.insertion_argsort
       "rev001" fixtures.empty_db
       [fixtures.sample_review "rev001" EmptyString;
        fixtures.sample_review "rev002" EmptyString]
     = Raised (ValueError fixtures.EMPTY_VOCABULARY).
Proof. split; reflexivity. Qed.

(** The finder, run on a three-review corpus with distinct ids. *)
Lemma find_similar_reviews_distinct_witness :
  let corpus := [fixtures.sample_review "rev001" "Great service";
                 fixtures.sample_review "rev002" "Slow service";
                 fixtures.sample_review "rev003" "Great service"] in
  exists similar_review_ids,
    find_similar_reviews fixtures.toy_cosine fixtures.insertion_argsort
      "rev001" (fixtures.db_of corpus) []
    = Returned similar_review_ids
    /\ NoDup similar_review_ids
    /\ forall x, In x similar_review_ids ->
         x <> "rev001" /\ exists review, In review corpus /\ r_id review = x.
Proof.
  intros corpus.
  destruct (find_similar_reviews_distinct fixtures.toy_cosine
              fixtures.insertion_argsort toy_cosine_length toy_cosine_nonneg
              insertion_argsort_perm insertion_argsort_sorted
              "rev001" (fixtures.db_of corpus) [])
    as [ids [Hres [_ Hdistinct]]];
    [intros t; eexists; reflexivity | simpl; lia | reflexivity |].
  exists ids. split; [exact Hres |].
  apply Hdistinct. simpl. repeat constructor; simpl; intuition discriminate.
Defined.

(** C10 as stated fails: a corpus that holds another id twice returns that
    id twice. *)
Lemma find_similar_reviews_repeats_id :
  find_similar_reviews fixtures.toy_cosine fixtures.insertion_argsort
    "rev001" fixtures.empty_db
    [fixtures.sample_review "rev001" "Great service";
     fixtures.sample_review "rev002" "Slow service";
     fixtures.sample_review "rev002" "Slow service again"]
  = Returned ["rev002"; "rev002"].
Proof. reflexivity. Qed.

(** * Further properties *)

(** ** The review store: what a successful write leaves behind *)

Lemma select_app (t rows : Table) (i : string) :
  sql_select_by_id (t ++ rows) i
  = match sql_select_by_id t i with
    | Some row => Some row
    | None => sql_select_by_id rows i
    end.
Proof.
  unfold sql_select_by_id.
  induction t as [| r t IH]; simpl; [reflexivity |].
  destruct (String.eqb (row_id r) i); [reflexivity | exact IH].
Qed.

Lemma has_id_false_select (t : Table) (i : string) :
  has_id t i = false <-> sql_select_by_id t i = None.
Proof.
  split; intros H.
  - destruct (sql_select_by_id t i) as [row |] eqn:E; [| reflexivity].
    assert (Hex : has_id t i = true) by (apply has_id_select; now exists row).
    congruence.
  - destruct (has_id t i) eqn:E; [| reflexivity].
    apply has_id_select in E. destruct E as [row E]. congruence.
Qed.

(** The dict a review comes back as after it was stored: the seven keys it
    was stored with, and no suggested reply. *)
Lemma review_of_row_of_review (review : Review) :
  review_of_row (row_of_review review)
  = mkReview (r_id review) (r_location review) (r_rating review) (r_date review)
             (r_text review) (r_sentiment review) (r_topics review) None.
Proof. reflexivity. Qed.

(** X1. Insert then look up.  [add_review] of a review whose id the table
    does not hold and whose rating fits a signed 64-bit integer returns
    [True] and commits; [get_review] of that id then
    gives the review back with the seven keys it was stored with and no
    suggested reply, the look-up of every other id is what it was, and the
    full listing is the old one followed by the new review. *)
Theorem add_review_then_get_review (store : ReviewDatabase) (review : Review) :
  has_id (working store) (r_id review) = false ->
  fits_int64 (r_rating review) = true ->
  fst (add_review store review) = true
  /\ committed (snd (add_review store review)) = working (snd (add_review store review))
  /\ get_review (snd (add_review store review)) (r_id review)
     = Some (mkReview (r_id review) (r_location review) (r_rating review)
               (r_date review) (r_text review) (r_sentiment review)
               (r_topics review) None)
  /\ (forall i, i <> r_id review ->
        get_review (snd (add_review store review)) i = get_review store i)
  /\ get_all_reviews_as_json (snd (add_review store review))
     = get_all_reviews_as_json store
       ++ [mkReview (r_id review) (r_location review) (r_rating review)
             (r_date review) (r_text review) (r_sentiment review)
             (r_topics review) None].
Proof.
  intros Hfresh Hfits. unfold add_review, sql_insert. simpl.
  rewrite Hfresh, Hfits. simpl.
  split; [reflexivity |]. split; [reflexivity |].
  apply has_id_false_select in Hfresh.
  split; [| split].
  - unfold get_review. simpl. rewrite select_app, Hfresh.
    unfold sql_select_by_id. simpl. rewrite String.eqb_refl. reflexivity.
  - intros i Hne. unfold get_review. simpl. rewrite select_app.
    destruct (sql_select_by_id (working store) i); [reflexivity |].
    unfold sql_select_by_id. simpl.
    destruct (String.eqb_spec (r_id review) i); [congruence | reflexivity].
  - unfold get_all_reviews_as_json. simpl. now rewrite map_app.
Qed.

Lemma add_review_then_get_review_witness :
  let review := mkReview "rev002" "LA" 2 "2025-10-03" "Slow" "negative"
                  ["efficiency"] (Some "ignored") in
  let store := fixtures.db_of [fixtures.sample_review "rev001" "Great"] in
  fst (add_review store review) = true
  /\ get_review (snd (add_review store review)) "rev002"
     = Some (mkReview "rev002" "LA" 2 "2025-10-03" "Slow" "negative"
               ["efficiency"] None)
  /\ get_review (snd (add_review store review)) "rev001"
     = get_review store "rev001".
Proof.
  intros review store.
  destruct (add_review_then_get_review store review eq_refl eq_refl)
    as [Hok [_ [Hget [Hother _]]]].
  split; [exact Hok | split; [exact Hget |]].
  apply Hother. discriminate.
Defined.

(** A new id with a rating that cannot be bound: nothing is stored. *)
Example add_review_rating_out_of_range :
  let store := fixtures.db_of [fixtures.sample_review "rev001" "Great"] in
  add_review store (mkReview "rev002" "LA" (2 ^ 63) "2025-10-03" "Slow"
                      "negative" ["efficiency"] None)
  = (false, store).
Proof. reflexivity. Qed.

(** [executemany] takes a batch whose ids are new and pairwise distinct and
    whose ratings can be bound as a whole, appending its rows in order. *)
Lemma executemany_appends (rows : list Row) :
  forall t,
    NoDup (map row_id rows) ->
    (forall r, In r rows -> has_id t (row_id r) = false) ->
    (forall r, In r rows -> fits_int64 (row_rating r) = true) ->
    sql_executemany_insert t rows = (t ++ rows, true).
Proof.
  induction rows as [| r rest IH]; intros t Hnd Hfresh Hfits; simpl.
  - now rewrite app_nil_r.
  - unfold sql_insert.
    rewrite (Hfresh r (or_introl eq_refl)), (Hfits r (or_introl eq_refl)). simpl.
    apply NoDup_cons_iff in Hnd. destruct Hnd as [Hnotin Hnd].
    rewrite IH; [now rewrite <- app_assoc | exact Hnd | |
                 intros r' Hin; apply Hfits; now right].
    intros r' Hin. rewrite has_id_app, has_id_single.
    rewrite (Hfresh r' (or_intror Hin)). simpl.
    apply String.eqb_neq. intros Heq. apply Hnotin.
    rewrite Heq. now apply in_map.
Qed.

Lemma executemany_binds (rows : list Row) :
  forall t t', sql_executemany_insert t rows = (t', true) ->
               forall r, In r rows -> fits_int64 (row_rating r) = true.
Proof.
  induction rows as [| r rest IH]; intros t t' H r' Hin; [destruct Hin |].
  simpl in H. destruct (sql_insert t r) as [t1 |] eqn:Ei; [| discriminate].
  apply sql_insert_some in Ei. destruct Ei as [Hfits _].
  destruct Hin as [<- | Hin]; [exact Hfits | now apply (IH t1 t' H)].
Qed.

(** X2. [add_reviews_batch] returns [True] exactly when the ids of the batch
    are pairwise distinct, none is in the table, and every rating fits a
    signed 64-bit integer; it then appends one row per review, in the order
    of the batch, and commits. *)
Theorem add_reviews_batch_accepts (store : ReviewDatabase) (reviews : list Review) :
  (fst (add_reviews_batch store reviews) = true
   <-> NoDup (map r_id reviews)
       /\ (forall review, In review reviews ->
                          has_id (working store) (r_id review) = false)
       /\ (forall review, In review reviews ->
                          fits_int64 (r_rating review) = true))
  /\ (fst (add_reviews_batch store reviews) = true ->
      working (snd (add_reviews_batch store reviews))
      = working store ++ map row_of_review reviews
      /\ committed (snd (add_reviews_batch store reviews))
         = working (snd (add_reviews_batch store reviews))).
Proof.
  assert (Hrows : NoDup (map r_id reviews)
                  /\ (forall review, In review reviews ->
                                     has_id (working store) (r_id review) = false)
                  /\ (forall review, In review reviews ->
                                     fits_int64 (r_rating review) = true) ->
                  sql_executemany_insert (working store) (map row_of_review reviews)
                  = (working store ++ map row_of_review reviews, true)).
  { intros [Hnd [Hfresh Hfits]]. apply executemany_appends.
    - now rewrite map_map.
    - intros r Hin. apply in_map_iff in Hin. destruct Hin as [review [<- Hin]].
      now apply Hfresh.
    - intros r Hin. apply in_map_iff in Hin. destruct Hin as [review [<- Hin]].
      now apply Hfits. }
  assert (Hiff : fst (add_reviews_batch store reviews) = true
                 <-> NoDup (map r_id reviews)
                     /\ (forall review, In review reviews ->
                                        has_id (working store) (r_id review) = false)
                     /\ (forall review, In review reviews ->
                                        fits_int64 (r_rating review) = true)).
  { unfold add_reviews_batch. split.
    - destruct (sql_executemany_insert (working store) (map row_of_review reviews))
        as [t ok] eqn:E.
      destruct ok; [| discriminate]. intros _.
      pose proof (executemany_binds _ _ _ E) as Hfits.
      apply executemany_accepts in E. destruct E as [Hnd Hfresh].
      rewrite map_map in Hnd. split; [exact Hnd |]. split.
      + intros review Hin. apply (Hfresh (row_of_review review)). now apply in_map.
      + intros review Hin. apply (Hfits (row_of_review review)). now apply in_map.
    - intros H. now rewrite (Hrows H). }
  split; [exact Hiff |].
  intros Hok. apply Hiff in Hok.
  unfold add_reviews_batch. rewrite (Hrows Hok). split; reflexivity.
Qed.

Lemma add_reviews_batch_accepts_witness :
  let store := fixtures.db_of [fixtures.sample_review "rev001" "Great"] in
  let reviews := [fixtures.sample_review "rev002" "Fine";
                  fixtures.sample_review "rev003" "Slow"] in
  working (snd (add_reviews_batch store reviews))
  = working store ++ map row_of_review reviews
  /\ committed (snd (add_reviews_batch store reviews))
     = working (snd (add_reviews_batch store reviews)).
Proof.
  intros store reviews.
  apply (proj2 (add_reviews_batch_accepts store reviews)). reflexivity.
Defined.

Lemma update_keeps_ids (t : Table) (i s : string) :
  map row_id (fst (sql_update_reply t i s)) = map row_id t.
Proof.
  unfold sql_update_reply. simpl. rewrite map_map.
  apply map_ext. intros r. now destruct (String.eqb (row_id r) i).
Qed.

Lemma select_update_other (t : Table) (i j s : string) :
  j <> i ->
  sql_select_by_id (fst (sql_update_reply t i s)) j = sql_select_by_id t j.
Proof.
  intros Hne. unfold sql_select_by_id, sql_update_reply. simpl.
  induction t as [| r t IH]; simpl; [reflexivity |].
  destruct (String.eqb_spec (row_id r) i) as [Hi | Hi]; simpl.
  - destruct (String.eqb_spec (row_id r) j); [congruence | exact IH].
  - destruct (String.eqb (row_id r) j); [reflexivity | exact IH].
Qed.

Lemma update_unknown_id (t : Table) (i s : string) :
  has_id t i = false -> sql_update_reply t i s = (t, 0).
Proof.
  unfold has_id, sql_update_reply.
  induction t as [| r t IH]; simpl; intros H; [reflexivity |].
  apply orb_false_iff in H. destruct H as [Hr Ht].
  rewrite Hr. specialize (IH Ht). injection IH as Hmap Hcount.
  now rewrite Hmap, Hcount.
Qed.

Lemma has_id_by_ids (t t' : Table) (i : string) :
  map row_id t = map row_id t' -> has_id t i = has_id t' i.
Proof.
  unfold has_id. revert t'.
  induction t as [| r t IH]; intros [| r' t'] H; simpl in *; try discriminate;
    [reflexivity |].
  injection H as Hr Ht. now rewrite Hr, (IH t' Ht).
Qed.

Lemma working_after_reply (d : ReviewDatabase) (i s : string) :
  working (snd (add_suggested_reply d i s)) = fst (sql_update_reply (working d) i s)
  /\ committed (snd (add_suggested_reply d i s))
     = fst (sql_update_reply (working d) i s).
Proof.
  unfold add_suggested_reply.
  destruct (sql_update_reply (working d) i s) as [t n]. simpl.
  destruct (Nat.eqb n 0); split; reflexivity.
Qed.

Lemma get_after_reply (d : ReviewDatabase) (i s : string) :
  has_id (working d) i = true -> s <> EmptyString ->
  get_suggested_reply (snd (add_suggested_reply d i s)) i = Some s.
Proof.
  intros Hid Hne. apply has_id_select in Hid. destruct Hid as [row Hrow].
  unfold get_suggested_reply.
  rewrite (proj1 (working_after_reply d i s)),
    (select_after_update _ i s row Hrow). simpl.
  destruct s; [congruence | reflexivity].
Qed.

(** X3. Write a reply then read it.  For an id in the table and a non-empty
    reply, [add_suggested_reply] returns [True], [get_suggested_reply] then
    returns that reply, a later write for the same id replaces it, the reply
    of every other id is what it was, and no row is added or removed. *)
Theorem add_suggested_reply_then_get (store : ReviewDatabase) (i s : string) :
  has_id (working store) i = true ->
  s <> EmptyString ->
  fst (add_suggested_reply store i s) = true
  /\ get_suggested_reply (snd (add_suggested_reply store i s)) i = Some s
  /\ (forall s2, s2 <> EmptyString ->
        get_suggested_reply
          (snd (add_suggested_reply (snd (add_suggested_reply store i s)) i s2)) i
        = Some s2)
  /\ (forall j, j <> i ->
        get_suggested_reply (snd (add_suggested_reply store i s)) j
        = get_suggested_reply store j)
  /\ map row_id (working (snd (add_suggested_reply store i s)))
     = map row_id (working store).
Proof.
  intros Hid Hne.
  split; [now rewrite add_suggested_reply_reports |].
  split; [now apply get_after_reply |].
  destruct (working_after_reply store i s) as [Hw _].
  split; [| split].
  - intros s2 Hne2. apply get_after_reply; [| exact Hne2].
    rewrite Hw, (has_id_by_ids _ (working store) i); [exact Hid |].
    apply update_keeps_ids.
  - intros j Hj. unfold get_suggested_reply. rewrite Hw.
    now rewrite select_update_other.
  - rewrite Hw. apply update_keeps_ids.
Qed.

Lemma add_suggested_reply_then_get_witness :
  let store := fixtures.db_of [fixtures.sample_review "rev001" "Great";
                               fixtures.sample_review "rev002" "Slow"] in
  fst (add_suggested_reply store "rev001" "Thank you!") = true
  /\ get_suggested_reply (snd (add_suggested_reply store "rev001" "Thank you!"))
       "rev001" = Some "Thank you!"
  /\ get_suggested_reply (snd (add_suggested_reply store "rev001" "Thank you!"))
       "rev002" = None.
Proof.
  intros store.
  destruct (add_suggested_reply_then_get store "rev001" "Thank you!" eq_refl)
    as [Hok [Hget [_ [Hother _]]]]; [discriminate |].
  split; [exact Hok | split; [exact Hget |]].
  rewrite Hother; [reflexivity | discriminate].
Defined.

Lemma reply_for_unknown_id (store : ReviewDatabase) (i s : string) :
  has_id (working store) i = false ->
  clean store ->
  add_suggested_reply store i s = (false, store).
Proof.
  intros Hid Hclean. unfold add_suggested_reply.
  rewrite (update_unknown_id _ i s Hid). simpl.
  unfold clean in Hclean. unfold commit, with_working. simpl.
  destruct store as [c w]. simpl in *. now subst.
Qed.

(** X4. A reply for an id the table does not hold: [add_suggested_reply]
    returns [False] and no row changes, so a connection with nothing pending
    is left exactly as it was. *)
Theorem add_suggested_reply_unknown_id (store : ReviewDatabase) (i s : string) :
  has_id (working store) i = false ->
  fst (add_suggested_reply store i s) = false
  /\ working (snd (add_suggested_reply store i s)) = working store
  /\ (clean store -> snd (add_suggested_reply store i s) = store).
Proof.
  intros Hid. unfold add_suggested_reply.
  rewrite (update_unknown_id _ i s Hid). simpl.
  split; [reflexivity |]. split; [reflexivity |].
  unfold clean, commit, with_working. simpl.
  destruct store as [c w]. simpl. intros ->. reflexivity.
Qed.

Lemma add_suggested_reply_unknown_id_witness :
  let store := fixtures.db_of [fixtures.sample_review "rev001" "Great"] in
  fst (add_suggested_reply store "rev404" "Thank you!") = false
  /\ snd (add_suggested_reply store "rev404" "Thank you!") = store.
Proof.
  intros store.
  destruct (add_suggested_reply_unknown_id store "rev404" "Thank you!" eq_refl)
    as [Hfalse [_ Hsame]].
  split; [exact Hfalse | apply Hsame; reflexivity].
Defined.

(** *** Invariants over any sequence of writes *)

Lemma insert_keeps_key (t t' : Table) (r : Row) :
  sql_insert t r = Some t' -> NoDup (map row_id t) -> NoDup (map row_id t').
Proof.
  intros H Hnd. apply sql_insert_some in H. destruct H as [_ [E ->]].
  rewrite map_app. simpl.
  apply NoDup_app; [exact Hnd | repeat constructor; intros [] |].
  intros a Ha [<- | []]. apply in_map_iff in Ha. destruct Ha as [r' [Heq Hin]].
  assert (Hex : has_id t (row_id r) = true).
  { unfold has_id. apply existsb_exists. exists r'.
    split; [exact Hin | now apply String.eqb_eq]. }
  congruence.
Qed.

Lemma executemany_keeps_key (rows : list Row) :
  forall t, NoDup (map row_id t) ->
            NoDup (map row_id (fst (sql_executemany_insert t rows))).
Proof.
  induction rows as [| r rest IH]; intros t Hnd; simpl; [exact Hnd |].
  destruct (sql_insert t r) as [t' |] eqn:E; [| exact Hnd].
  apply IH. now apply (insert_keeps_key t t' r).
Qed.

(** X5. The primary key holds after any sequence of writes: if the ids of
    the rows are pairwise distinct, both in what is committed and in what
    the connection sees, they still are after any calls of [add_review],
    [add_reviews_batch] and [add_suggested_reply]. *)
Theorem primary_key_preserved (store : ReviewDatabase) (cs : list Call) :
  NoDup (map row_id (committed store)) ->
  NoDup (map row_id (working store)) ->
  NoDup (map row_id (committed (calls store cs)))
  /\ NoDup (map row_id (working (calls store cs))).
Proof.
  unfold calls. revert store.
  induction cs as [| c cs IH]; intros store Hc Hw; simpl; [now split |].
  destruct c as [review | reviews | i s]; apply IH; simpl.
  - unfold add_review.
    destruct (sql_insert (working store) (row_of_review review)) as [t |] eqn:E;
      simpl; [now apply (insert_keeps_key _ _ _ E) | exact Hc].
  - unfold add_review.
    destruct (sql_insert (working store) (row_of_review review)) as [t |] eqn:E;
      simpl; [now apply (insert_keeps_key _ _ _ E) | exact Hw].
  - unfold add_reviews_batch.
    pose proof (executemany_keeps_key (map row_of_review reviews) _ Hw) as H.
    destruct (sql_executemany_insert (working store) (map row_of_review reviews))
      as [t []]; simpl in *; [exact H | exact Hc].
  - unfold add_reviews_batch.
    pose proof (executemany_keeps_key (map row_of_review reviews) _ Hw) as H.
    destruct (sql_executemany_insert (working store) (map row_of_review reviews))
      as [t []]; simpl in *; [exact H | exact Hc].
  - rewrite (proj2 (working_after_reply store i s)). now rewrite update_keeps_ids.
  - rewrite (proj1 (working_after_reply store i s)). now rewrite update_keeps_ids.
Qed.

Lemma primary_key_preserved_witness :
  let store := fixtures.db_of [fixtures.sample_review "rev001" "Great"] in
  let cs := [CallAddReview (fixtures.sample_review "rev001" "Again");
             CallAddReviewsBatch [fixtures.sample_review "rev002" "Fine";
                                  fixtures.sample_review "rev002" "Fine again"];
             CallAddReview (fixtures.sample_review "rev003" "Slow");
             CallAddSuggestedReply "rev003" "Sorry!"] in
  NoDup (map row_id (committed (calls store cs)))
  /\ NoDup (map row_id (working (calls store cs))).
Proof.
  intros store cs.
  apply (primary_key_preserved store cs);
    simpl; repeat constructor; simpl; intuition discriminate.
Defined.

(** X6. Every write is committed before its method returns: after any
    sequence of writes on a connection that had nothing pending, nothing is
    pending, so closing the connection and opening a new one loses nothing. *)
Theorem writes_are_durable (store : ReviewDatabase) (cs : list Call) :
  clean store ->
  clean (calls store cs) /\ close (calls store cs) = calls store cs.
Proof.
  intros Hclean.
  assert (H : clean (calls store cs)).
  { unfold calls. revert store Hclean.
    induction cs as [| c cs IH]; intros store Hclean; simpl; [exact Hclean |].
    apply IH. destruct c as [review | reviews | i s]; simpl.
    - now apply clean_add_review.
    - apply clean_add_reviews_batch.
    - apply clean_add_suggested_reply. }
  split; [exact H | now apply rollback_clean].
Qed.

Lemma writes_are_durable_witness :
  let store := fixtures.db_of [fixtures.sample_review "rev001" "Great"] in
  let cs := [CallAddReview (fixtures.sample_review "rev001" "Again");
             CallAddReviewsBatch [fixtures.sample_review "rev002" "Fine";
                                  fixtures.sample_review "rev002" "Fine again"];
             CallAddSuggestedReply "rev001" "Thank you!"] in
  clean (calls store cs) /\ close (calls store cs) = calls store cs.
Proof.
  intros store cs. apply (writes_are_durable store cs). reflexivity.
Defined.

(** ** The review store: what reads return *)

Lemma select_unique (t : Table) (row : Row) :
  NoDup (map row_id t) -> In row t -> sql_select_by_id t (row_id row) = Some row.
Proof.
  unfold sql_select_by_id.
  induction t as [| r t IH]; simpl; intros Hnd Hin; [destruct Hin |].
  apply NoDup_cons_iff in Hnd. destruct Hnd as [Hnotin Hnd].
  destruct Hin as [-> | Hin].
  - now rewrite String.eqb_refl.
  - destruct (String.eqb_spec (row_id r) (row_id row)) as [Heq | _];
      [| now apply IH].
    exfalso. apply Hnotin. rewrite Heq. now apply in_map.
Qed.

(** X7. The point look-up and the full listing agree: [get_review] of an id
    is the first review of [get_all_reviews_as_json] with that id, and when
    the ids of the rows are pairwise distinct every listed review is what
    [get_review] of its id returns. *)
Theorem get_review_agrees_with_listing (store : ReviewDatabase) :
  NoDup (map row_id (working store)) ->
  (forall i, get_review store i = find_review (get_all_reviews_as_json store) i)
  /\ (forall review, In review (get_all_reviews_as_json store) ->
                     get_review store (r_id review) = Some review)
  /\ NoDup (map r_id (get_all_reviews_as_json store)).
Proof.
  intros Hkey. split; [| split].
  - intros i. rewrite find_review_get_all. unfold get_review.
    now destruct (sql_select_by_id (working store) i).
  - intros review Hin. unfold get_all_reviews_as_json in Hin.
    apply in_map_iff in Hin. destruct Hin as [row [<- Hin]].
    unfold get_review. rewrite r_id_review_of_row.
    now rewrite (select_unique _ row Hkey Hin).
  - unfold get_all_reviews_as_json. rewrite map_map.
    rewrite (map_ext _ row_id (fun row => r_id_review_of_row row)). exact Hkey.
Qed.

Lemma get_review_agrees_with_listing_witness :
  let store := fixtures.db_of [fixtures.sample_review "rev001" "Great";
                               fixtures.sample_review "rev002" "Slow"] in
  get_review store "rev002" = Some (fixtures.sample_review "rev002" "Slow")
  /\ NoDup (map r_id (get_all_reviews_as_json store)).
Proof.
  intros store.
  assert (Hkey : NoDup (map row_id (working store)))
    by (simpl; repeat constructor; simpl; intuition discriminate).
  destruct (get_review_agrees_with_listing store Hkey) as [_ [Hlisted Hids]].
  split; [| exact Hids].
  apply (Hlisted (fixtures.sample_review "rev002" "Slow")).
  right. left. reflexivity.
Defined.

Lemma get_suggested_reply_spec (store : ReviewDatabase) (i s : string) :
  get_suggested_reply store i = Some s
  <-> exists row, sql_select_by_id (working store) i = Some row
                  /\ row_suggested_reply row = Some s
                  /\ s <> EmptyString.
Proof.
  unfold get_suggested_reply. split.
  - destruct (sql_select_by_id (working store) i) as [row |]; [| discriminate].
    destruct (row_suggested_reply row) as [[| c s'] |] eqn:E; simpl;
      try discriminate.
    intros H. injection H as <-. exists row.
    split; [reflexivity | split; [exact E | discriminate]].
  - intros [row [-> [-> Hne]]]. destruct s; [congruence | reflexivity].
Qed.

(** X8. No read of the store hands out an empty suggested reply: in a
    listed review, in a review looked up by id and in the result of
    [get_suggested_reply], the reply is either absent or a non-empty
    string, and it is present exactly when the column holds a non-empty
    string. *)
Theorem reads_never_return_empty_reply (store : ReviewDatabase) (i : string) :
  (forall review, In review (get_all_reviews_as_json store) ->
                  r_suggested_reply review <> Some EmptyString)
  /\ (forall review, get_review store i = Some review ->
                     r_suggested_reply review <> Some EmptyString
                     /\ r_suggested_reply review = get_suggested_reply store i)
  /\ get_suggested_reply store i <> Some EmptyString
  /\ (forall s, get_suggested_reply store i = Some s
                <-> exists row, sql_select_by_id (working store) i = Some row
                                /\ row_suggested_reply row = Some s
                                /\ s <> EmptyString).
Proof.
  assert (Hrow : forall row,
            r_suggested_reply (review_of_row row) <> Some EmptyString).
  { intros row. simpl.
    destruct (row_suggested_reply row) as [[| c s] |]; simpl; discriminate. }
  split; [| split; [| split]].
  - intros review Hin. unfold get_all_reviews_as_json in Hin.
    apply in_map_iff in Hin. destruct Hin as [row [<- _]]. apply Hrow.
  - intros review. unfold get_review, get_suggested_reply.
    destruct (sql_select_by_id (working store) i) as [row |]; [| discriminate].
    intros H. injection H as <-. split; [apply Hrow | reflexivity].
  - intros H. now apply get_suggested_reply_nonempty in H.
  - intros s. apply get_suggested_reply_spec.
Qed.

(** ** The reply handlers *)

(** X9. [/reply/{review_id}] answers with the stored reply exactly when the
    row exists and its reply is a non-empty string, and with 404 in every
    other case (no row, no reply yet, or an empty reply). *)
Theorem get_reply_answers (w : World) (i : string) :
  (forall s, get_reply w i = Returned (i, s)
             <-> exists row, sql_select_by_id (working (db w)) i = Some row
                             /\ row_suggested_reply row = Some s
                             /\ s <> EmptyString)
  /\ ((forall s, get_reply w i <> Returned (i, s))
      -> get_reply w i = Raised (HTTPException 404 (no_reply_detail i)))
  /\ (has_id (working (db w)) i = false ->
      get_reply w i = Raised (HTTPException 404 (no_reply_detail i))).
Proof.
  split; [| split].
  - intros s. rewrite <- get_suggested_reply_spec. unfold get_reply.
    destruct (get_suggested_reply (db w) i) as [s' |]; split; intros H;
      try discriminate; congruence.
  - unfold get_reply. destruct (get_suggested_reply (db w) i) as [s' |];
      [| reflexivity].
    intros H. exfalso. now apply (H s').
  - intros Hid. apply has_id_false_select in Hid.
    unfold get_reply, get_suggested_reply. now rewrite Hid.
Qed.

Lemma get_reply_answers_witness :
  let w := mkWorld [] (fixtures.db_of [fixtures.sample_review "rev001" "Great"])
             (fixtures.gemini_says "Thank you!") 0 in
  get_reply w "rev404" = Raised (HTTPException 404 (no_reply_detail "rev404"))
  /\ get_reply w "rev001" = Raised (HTTPException 404 (no_reply_detail "rev001")).
Proof.
  intros w. split.
  - apply (proj2 (proj2 (get_reply_answers w "rev404"))). reflexivity.
  - apply (proj1 (proj2 (get_reply_answers w "rev001"))).
    intros s. discriminate.
Defined.

Lemma resolve_review_unknown (w : World) (i : string) :
  id_in (reviews_db w) i = false ->
  has_id (working (db w)) i = false ->
  resolve_review w i = None.
Proof.
  intros Hmem Hid. unfold resolve_review, find_review.
  destruct (find (fun r => String.eqb (r_id r) i) (reviews_db w)) as [r |] eqn:E.
  - apply find_some in E. destruct E as [Hin Heq].
    unfold id_in in Hmem.
    assert (H : existsb (fun r0 => String.eqb (r_id r0) i) (reviews_db w) = true)
      by (apply existsb_exists; now exists r).
    congruence.
  - fold (find_review (get_all_reviews_as_json (db w)) i).
    rewrite find_review_get_all.
    apply has_id_false_select in Hid. now rewrite Hid.
Qed.

(** X10. [/generate-reply] for an id that is neither in the in-memory list
    nor in the table answers 404 and changes nothing: the generator is not
    called and nothing is written. *)
Theorem generate_reply_unknown_id (w : World) (i : string) :
  id_in (reviews_db w) i = false ->
  has_id (working (db w)) i = false ->
  generate_reply w i = (Raised (HTTPException 404 (not_found_detail i)), w).
Proof.
  intros Hmem Hid. unfold generate_reply, generate_reply_with.
  now rewrite (resolve_review_unknown w i Hmem Hid).
Qed.

Lemma generate_reply_unknown_id_witness :
  let w := mkWorld [fixtures.sample_review "rev001" "Great"]
             (fixtures.db_of [fixtures.sample_review "rev002" "Slow"])
             (fixtures.gemini_says "Thank you!") 0 in
  generate_reply w "rev404"
  = (Raised (HTTPException 404 (not_found_detail "rev404")), w).
Proof.
  intros w. apply (generate_reply_unknown_id w "rev404"); reflexivity.
Defined.

(** X11. Once a non-empty reply is stored for an id, any number of
    [/generate-reply] calls for it return that reply, each time with the
    same review text, and change nothing: the generator is never called
    again and the stored reply is never rewritten. *)
Theorem generate_reply_cached_forever (n : nat) (w : World) (i s : string) :
  has_id (working (db w)) i = true ->
  get_suggested_reply (db w) i = Some s ->
  exists review,
    resolve_review w i = Some review
    /\ generate_reply_times n w i
       = (repeat (Returned (mkReplyResponse i (r_text review) s)) n, w).
Proof.
  intros Hid Hs. destruct (resolve_review_stored w i Hid) as [review Hr].
  exists review. split; [exact Hr |].
  induction n as [| n IH]; simpl; [reflexivity |].
  unfold generate_reply at 1.
  rewrite (generate_reply_hit db_add_suggested_reply w i s review Hr Hs).
  now rewrite IH.
Qed.

Lemma generate_reply_cached_forever_witness :
  let row := mkRow "rev001" "NY" 5 "2025-10-04" "Great" "positive" ["quality"]
               (Some "Thank you!") in
  let w := mkWorld [] (mkDb [row] [row]) fixtures.gemini_empty_first 0 in
  exists review,
    resolve_review w "rev001" = Some review
    /\ generate_reply_times 3 w "rev001"
       = (repeat (Returned (mkReplyResponse "rev001" (r_text review) "Thank you!")) 3,
          w).
Proof.
  intros row w.
  apply (generate_reply_cached_forever 3 w "rev001" "Thank you!"); reflexivity.
Defined.

Lemma generate_reply_times_miss (n : nat) (review : Review) (i : string) :
  forall w,
    find_review (reviews_db w) i = Some review ->
    has_id (working (db w)) i = false ->
    clean (db w) ->
    generate_reply_times n w i
    = (map (fun k =>
              Returned (mkReplyResponse i (r_text review)
                          (ai_services.generate_reply
                             (gemini w (generate_calls w + k)) (r_text review))))
           (seq 0 n),
       mkWorld (reviews_db w) (db w) (gemini w) (generate_calls w + n)).
Proof.
  induction n as [| n IH]; intros w Hmem Hid Hclean.
  - simpl. rewrite Nat.add_0_r. now destruct w.
  - assert (Hr : resolve_review w i = Some review)
      by (unfold resolve_review; now rewrite Hmem).
    assert (Hs : get_suggested_reply (db w) i = None).
    { unfold get_suggested_reply.
      apply has_id_false_select in Hid. now rewrite Hid. }
    cbn [generate_reply_times]. unfold generate_reply at 1.
    rewrite (generate_reply_miss db_add_suggested_reply w i review Hr Hs).
    unfold db_add_suggested_reply.
    rewrite (reply_for_unknown_id (db w) i _ Hid Hclean).
    cbn [snd].
    rewrite (IH (mkWorld (reviews_db w) (db w) (gemini w) (S (generate_calls w))));
      [| exact Hmem | exact Hid | exact Hclean].
    cbn [reviews_db db gemini generate_calls].
    cbn [seq map]. rewrite <- seq_shift, map_map.
    rewrite Nat.add_0_r. f_equal.
    + f_equal. apply map_ext. intros k. now rewrite Nat.add_succ_r.
    + now rewrite Nat.add_succ_r.
Qed.

(** X12. A review that the in-memory list knows and the table does not has
    no row to keep a reply in: each of [n] calls of [/generate-reply] for it
    calls the generator afresh (call number [k] returns what the generator
    produces on its call [k]), and the database is left as it was. *)
Theorem generate_reply_without_row (n : nat) (w : World) (i : string)
    (review : Review) :
  find_review (reviews_db w) i = Some review ->
  has_id (working (db w)) i = false ->
  clean (db w) ->
  fst (generate_reply_times n w i)
  = map (fun k =>
           Returned (mkReplyResponse i (r_text review)
                       (ai_services.generate_reply
                          (gemini w (generate_calls w + k)) (r_text review))))
        (seq 0 n)
  /\ generate_calls (snd (generate_reply_times n w i)) = generate_calls w + n
  /\ db (snd (generate_reply_times n w i)) = db w
  /\ reviews_db (snd (generate_reply_times n w i)) = reviews_db w.
Proof.
  intros Hmem Hid Hclean.
  rewrite (generate_reply_times_miss n review i w Hmem Hid Hclean).
  repeat split.
Qed.

Lemma generate_reply_without_row_witness :
  let w := mkWorld [fixtures.sample_review "rev001" "Great"] fixtures.empty_db
             fixtures.gemini_empty_first 0 in
  fst (generate_reply_times 2 w "rev001")
  = [Returned (mkReplyResponse "rev001" "Great" EmptyString);
     Returned (mkReplyResponse "rev001" "Great" "Thank you!")]
  /\ generate_calls (snd (generate_reply_times 2 w "rev001")) = 2
  /\ db (snd (generate_reply_times 2 w "rev001")) = db w.
Proof.
  intros w.
  destruct (generate_reply_without_row 2 w "rev001"
              (fixtures.sample_review "rev001" "Great") eq_refl eq_refl eq_refl)
    as [Hres [Hcalls [Hdb _]]].
  split; [exact Hres | split; [exact Hcalls | exact Hdb]].
Defined.

(** ** The ingest handler and what follows it *)

Lemma get_suggested_reply_appended (c c' : Table) (t added : Table) (i : string) :
  Forall (fun row => row_suggested_reply row = None) added ->
  get_suggested_reply (mkDb c (t ++ added)) i = get_suggested_reply (mkDb c' t) i.
Proof.
  intros Hnull. unfold get_suggested_reply. simpl. rewrite select_app.
  destruct (sql_select_by_id t i) as [row |]; [reflexivity |].
  destruct (sql_select_by_id added i) as [row |] eqn:E; [| reflexivity].
  unfold sql_select_by_id in E. apply find_some in E. destruct E as [Hin _].
  rewrite Forall_forall in Hnull. now rewrite (Hnull row Hin).
Qed.

Lemma rows_of_reviews_have_no_reply (reviews : list Review) :
  Forall (fun row => row_suggested_reply row = None) (map row_of_review reviews).
Proof. apply Forall_forall. intros row Hin. apply in_map_iff in Hin.
  destruct Hin as [r [<- _]]. reflexivity.
Qed.

Section handler_properties.
Variable polarity_compound : string -> Q.
Variable str_lower : string -> string.
Variable is_word_char : ascii -> bool.

Local Abbreviation process_single_review :=
  (process_single_review polarity_compound str_lower is_word_char).
Local Abbreviation process_each := (process_each polarity_compound str_lower is_word_char).
Local Abbreviation ingest_review := (ingest_review polarity_compound str_lower is_word_char).
Local Abbreviation enriched := (spec.enriched polarity_compound str_lower is_word_char).

Lemma process_each_accepts (memory : list Review) (batch : list ReviewInput) :
  (forall x, In x batch -> id_in memory (in_id x) = false) ->
  process_each memory batch = Returned (map enriched batch).
Proof.
  induction batch as [| x rest IH]; intros Hnew; simpl; [reflexivity |].
  unfold main.process_single_review. rewrite (Hnew x (or_introl eq_refl)).
  rewrite IH; [reflexivity |]. intros y Hy. apply Hnew. now right.
Qed.

(** The loop raises for the first review of the batch whose id the list
    holds. *)
Lemma process_each_rejects (memory : list Review) (batch : list ReviewInput) :
  (exists x, In x batch /\ id_in memory (in_id x) = true) ->
  exists before x after,
    batch = before ++ x :: after
    /\ (forall y, In y before -> id_in memory (in_id y) = false)
    /\ id_in memory (in_id x) = true
    /\ process_each memory batch
       = Raised (HTTPException 400 (duplicate_detail (in_id x))).
Proof.
  induction batch as [| y rest IH]; intros [x [Hin Hknown]]; [destruct Hin |].
  simpl. unfold main.process_single_review.
  destruct (id_in memory (in_id y)) eqn:Ey.
  - exists [], y, rest. split; [reflexivity |].
    split; [intros z [] | split; [exact Ey | reflexivity]].
  - destruct Hin as [-> | Hin]; [congruence |].
    destruct (IH (ex_intro _ x (conj Hin Hknown)))
      as [before [z [after [Hsplit [Hbefore [Hkz Hraise]]]]]].
    exists (y :: before), z, after. split; [simpl; now rewrite Hsplit |].
    split; [intros u [<- | Hu]; [exact Ey | now apply Hbefore] |].
    split; [exact Hkz |].
    fold (main.process_each polarity_compound str_lower is_word_char memory rest).
    now rewrite Hraise.
Qed.

Lemma ingest_review_accepts (w : World) (body : IngestBody) :
  (forall x, In x (spec.body_reviews body) ->
             id_in (reviews_db w) (in_id x) = false) ->
  fst (ingest_review w body)
  = Returned (spec.response_for body (map enriched (spec.body_reviews body)))
  /\ reviews_db (snd (ingest_review w body))
     = reviews_db w ++ map enriched (spec.body_reviews body)
  /\ gemini (snd (ingest_review w body)) = gemini w
  /\ generate_calls (snd (ingest_review w body)) = generate_calls w.
Proof.
  intros Hnew.
  pose proof (process_each_accepts (reviews_db w) _ Hnew) as Hacc.
  unfold main.ingest_review. destruct body as [review_data | batch]; simpl in *.
  - destruct (process_single_review (reviews_db w) review_data) as [e |];
      [| discriminate].
    injection Hacc as ->.
    destruct (add_review (db w) (enriched review_data)) as [ok d]. simpl.
    repeat split.
  - rewrite Hacc.
    destruct (add_reviews_batch (db w) (map enriched batch)) as [ok d]. simpl.
    repeat split.
Qed.

(** X13. [/ingest] is all-or-nothing on the in-memory list.  When some
    review of the body has an id the list already holds, the handler answers
    400 naming the first such id and changes nothing; when none has, it
    answers with the enriched reviews (the five fields of each input, its
    sentiment and its topics), appends exactly these to the list in the
    order of the body, and the count the root endpoint reports grows by the
    number of reviews in the body. *)
Theorem ingest_review_all_or_nothing (w : World) (body : IngestBody) :
  ((exists x, In x (spec.body_reviews body) /\ id_in (reviews_db w) (in_id x) = true) ->
     exists before x after,
       spec.body_reviews body = before ++ x :: after
       /\ (forall y, In y before -> id_in (reviews_db w) (in_id y) = false)
       /\ id_in (reviews_db w) (in_id x) = true
       /\ ingest_review w body
          = (Raised (HTTPException 400 (duplicate_detail (in_id x))), w))
  /\ ((forall x, In x (spec.body_reviews body) ->
                 id_in (reviews_db w) (in_id x) = false) ->
      fst (ingest_review w body)
      = Returned (spec.response_for body (map enriched (spec.body_reviews body)))
      /\ reviews_db (snd (ingest_review w body))
         = reviews_db w ++ map enriched (spec.body_reviews body)
      /\ total_reviews (root (snd (ingest_review w body)))
         = total_reviews (root w) + List.length (spec.body_reviews body)
      /\ generate_calls (snd (ingest_review w body)) = generate_calls w).
Proof.
  split.
  - intros Hknown.
    destruct (process_each_rejects (reviews_db w) _ Hknown)
      as [before [x [after [Hsplit [Hbefore [Hk Hraise]]]]]].
    exists before, x, after.
    split; [exact Hsplit | split; [exact Hbefore | split; [exact Hk |]]].
    unfold main.ingest_review. destruct body as [review_data | batch]; simpl in *.
    + destruct (process_single_review (reviews_db w) review_data) as [e |];
        [discriminate | now inversion Hraise].
    + now rewrite Hraise.
  - intros Hnew.
    destruct (ingest_review_accepts w body Hnew) as [Hres [Hlist [_ Hcalls]]].
    split; [exact Hres |]. split; [exact Hlist |]. split; [| exact Hcalls].
    unfold root. simpl. now rewrite Hlist, length_app, length_map.
Qed.

(** X14. [/ingest] never touches a stored row: on a connection with nothing
    pending the table after the call is the table before it followed by the
    rows it added, all of them without a reply; so the stored reply of every
    id is what it was. *)
Theorem ingest_review_keeps_stored_rows (w : World) (body : IngestBody) :
  clean (db w) ->
  (exists added,
      working (db (snd (ingest_review w body))) = working (db w) ++ added
      /\ Forall (fun row => row_suggested_reply row = None) added)
  /\ forall i,
       get_suggested_reply (db (snd (ingest_review w body))) i
       = get_suggested_reply (db w) i.
Proof.
  intros Hclean.
  assert (H : exists added,
             working (db (snd (ingest_review w body))) = working (db w) ++ added
             /\ Forall (fun row => row_suggested_reply row = None) added).
  { unfold main.ingest_review. destruct body as [review_data | batch].
    - destruct (process_single_review (reviews_db w) review_data) as [e |];
        [| exists []; simpl; now rewrite app_nil_r].
      unfold add_review.
      destruct (sql_insert (working (db w)) (row_of_review e)) as [t |] eqn:Ei;
        simpl.
      + apply sql_insert_some in Ei. destruct Ei as [_ [_ ->]].
        exists [row_of_review e]. split; [reflexivity | now repeat constructor].
      + exists []. now rewrite app_nil_r.
    - destruct (process_each (reviews_db w) batch) as [l |];
        [| exists []; simpl; now rewrite app_nil_r].
      unfold add_reviews_batch.
      destruct (sql_executemany_insert (working (db w)) (map row_of_review l))
        as [t ok] eqn:E.
      destruct ok; simpl.
      + pose proof (executemany_accepts _ _ _ E) as [Hnd Hfresh].
        pose proof (executemany_binds _ _ _ E) as Hfits.
        rewrite (executemany_appends _ _ Hnd Hfresh Hfits) in E. injection E as <-.
        exists (map row_of_review l).
        split; [reflexivity | apply rows_of_reviews_have_no_reply].
      + exists []. rewrite app_nil_r. split; [now symmetry | constructor]. }
  split; [exact H |].
  destruct H as [added [Hw Hnull]]. intros i.
  destruct (db (snd (ingest_review w body))) as [c' t']. simpl in Hw. subst t'.
  destruct (db w) as [c t] eqn:Edb. simpl.
  now apply get_suggested_reply_appended.
Qed.

Lemma find_review_new (memory : list Review) (review : Review) :
  id_in memory (r_id review) = false ->
  find_review (memory ++ [review]) (r_id review) = Some review.
Proof.
  unfold id_in, find_review.
  induction memory as [| r rest IH]; simpl; intros H.
  - now rewrite String.eqb_refl.
  - apply orb_false_iff in H. destruct H as [Hr Hrest]. rewrite Hr. now apply IH.
Qed.

Lemma working_after_ingest (w : World) (body : IngestBody) :
  NoDup (map in_id (spec.body_reviews body)) ->
  (forall x, In x (spec.body_reviews body) ->
             id_in (reviews_db w) (in_id x) = false
             /\ has_id (working (db w)) (in_id x) = false
             /\ fits_int64 (in_rating x) = true) ->
  working (db (snd (ingest_review w body)))
  = working (db w) ++ map row_of_review (map enriched (spec.body_reviews body)).
Proof.
  intros Hnd Hnew.
  assert (Hacc : process_each (reviews_db w) (spec.body_reviews body)
                 = Returned (map enriched (spec.body_reviews body)))
    by (apply process_each_accepts; intros x Hx; apply (Hnew x Hx)).
  unfold main.ingest_review. destruct body as [review_data | batch]; simpl in *.
  - destruct (process_single_review (reviews_db w) review_data) as [e |];
      [| discriminate].
    injection Hacc as ->.
    destruct (Hnew review_data (or_introl eq_refl)) as [_ [Hid Hfits]].
    unfold add_review, sql_insert. simpl. now rewrite Hid, Hfits.
  - rewrite Hacc. unfold add_reviews_batch.
    rewrite executemany_appends; [reflexivity | | |].
    + rewrite !map_map. simpl. exact Hnd.
    + intros r Hin. rewrite map_map in Hin. apply in_map_iff in Hin.
      destruct Hin as [x [<- Hx]]. simpl. apply (Hnew x Hx).
    + intros r Hin. rewrite map_map in Hin. apply in_map_iff in Hin.
      destruct Hin as [x [<- Hx]]. simpl. apply (Hnew x Hx).
Qed.

(** X15. Ingest, then ask for a reply, then fetch it.  For a review whose id
    is new to the list and to the table and whose rating fits a signed
    64-bit integer, [/generate-reply] after [/ingest]
    returns the text that was ingested and the reply the generator produces
    for it; when that reply is non-empty [/reply/{review_id}] then returns
    the identical string, and when it is empty [/reply/{review_id}] answers
    404. *)
Theorem ingest_generate_then_get_reply (w : World) (review_data : ReviewInput) :
  id_in (reviews_db w) (in_id review_data) = false ->
  has_id (working (db w)) (in_id review_data) = false ->
  fits_int64 (in_rating review_data) = true ->
  fst (generate_reply (snd (ingest_review w (Single review_data))) (in_id review_data))
  = Returned (mkReplyResponse (in_id review_data) (in_text review_data)
                (ai_services.generate_reply (gemini w (generate_calls w))
                   (in_text review_data)))
  /\ (ai_services.generate_reply (gemini w (generate_calls w)) (in_text review_data)
      <> EmptyString ->
      get_reply
        (snd (generate_reply (snd (ingest_review w (Single review_data)))
                (in_id review_data)))
        (in_id review_data)
      = Returned (in_id review_data,
                  ai_services.generate_reply (gemini w (generate_calls w))
                    (in_text review_data)))
  /\ (ai_services.generate_reply (gemini w (generate_calls w)) (in_text review_data)
      = EmptyString ->
      get_reply
        (snd (generate_reply (snd (ingest_review w (Single review_data)))
                (in_id review_data)))
        (in_id review_data)
      = Raised (HTTPException 404 (no_reply_detail (in_id review_data)))).
Proof.
  intros Hmem Hid Hfits.
  set (i := in_id review_data) in *.
  set (s := ai_services.generate_reply (gemini w (generate_calls w))
              (in_text review_data)).
  set (w1 := snd (ingest_review w (Single review_data))).
  assert (Hnew : forall x, In x (spec.body_reviews (Single review_data)) ->
                   id_in (reviews_db w) (in_id x) = false
                   /\ has_id (working (db w)) (in_id x) = false
                   /\ fits_int64 (in_rating x) = true).
  { intros x [<- | []]. now repeat split. }
  destruct (ingest_review_accepts w (Single review_data)) as [_ [Hlist [Hgem Hcalls]]];
    [intros x Hx; apply (Hnew x Hx) |].
  pose proof (working_after_ingest w (Single review_data)
                ltac:(simpl; repeat constructor; intros []) Hnew) as Hrows.
  fold w1 in Hlist, Hgem, Hcalls, Hrows. simpl in Hlist, Hrows.
  assert (Hr : resolve_review w1 i = Some (enriched review_data)).
  { pose proof (find_review_new (reviews_db w) (enriched review_data) Hmem) as Hf.
    unfold resolve_review. rewrite Hlist. cbn [map spec.body_reviews].
    unfold i. cbn [r_id spec.enriched] in Hf. now rewrite Hf. }
  assert (Hrow : sql_select_by_id (working (db w1)) i
                 = Some (row_of_review (enriched review_data))).
  { rewrite Hrows, select_app.
    apply has_id_false_select in Hid. rewrite Hid.
    unfold sql_select_by_id. simpl. fold i. now rewrite String.eqb_refl. }
  assert (Hs : get_suggested_reply (db w1) i = None).
  { unfold get_suggested_reply. now rewrite Hrow. }
  unfold generate_reply.
  rewrite (generate_reply_miss db_add_suggested_reply w1 i _ Hr Hs).
  rewrite Hgem, Hcalls. cbn [fst snd r_text spec.enriched]. fold s.
  split; [reflexivity |].
  pose proof (select_after_write (db w1) i s _ Hrow) as Hsel.
  unfold get_reply, get_suggested_reply. cbn [db]. rewrite Hsel. cbn.
  split; intros H.
  - destruct s; [congruence | reflexivity].
  - now rewrite H.
Qed.

(** X16. What [/all-reviews] lists after an accepted ingest.  When the
    reviews of a non-empty body have pairwise distinct ids that are new to
    the list and to the table and ratings that fit a signed 64-bit integer,
    the listing is the reviews of the table as it
    was, followed by the enriched reviews of the body in order; whatever the
    in-memory list held besides is not listed. *)
Theorem get_all_reviews_after_ingest (w : World) (body : IngestBody) :
  spec.body_reviews body <> [] ->
  NoDup (map in_id (spec.body_reviews body)) ->
  (forall x, In x (spec.body_reviews body) ->
             id_in (reviews_db w) (in_id x) = false
             /\ has_id (working (db w)) (in_id x) = false
             /\ fits_int64 (in_rating x) = true) ->
  get_all_reviews (snd (ingest_review w body))
  = get_all_reviews_as_json (db w) ++ map enriched (spec.body_reviews body).
Proof.
  intros Hne Hnd Hnew.
  pose proof (working_after_ingest w body Hnd Hnew) as Hrows.
  unfold get_all_reviews, get_all_reviews_as_json. rewrite Hrows.
  rewrite map_app, !map_map.
  rewrite (map_ext (fun x => review_of_row (row_of_review (enriched x))) enriched)
    by reflexivity.
  destruct (map review_of_row (working (db w)) ++ map enriched (spec.body_reviews body))
    as [| r l] eqn:E; [| reflexivity].
  apply app_eq_nil in E. destruct E as [_ E]. apply map_eq_nil in E. congruence.
Qed.
End handler_properties.

Lemma ingest_review_all_or_nothing_witness :
  let w := mkWorld [fixtures.sample_review "rev001" "Great";
                    fixtures.sample_review "rev004" "Fine"] fixtures.empty_db
             (fixtures.gemini_says "Thank you!") 0 in
  (exists before x after,
      [fixtures.sample_input "rev002" "Slow"; fixtures.sample_input "rev004" "Again";
       fixtures.sample_input "rev001" "Again"] = before ++ x :: after
      /\ (forall y, In y before -> id_in (reviews_db w) (in_id y) = false)
      /\ id_in (reviews_db w) (in_id x) = true
      /\ ingest_review fixtures.toy_compound fixtures.ascii_lower
           fixtures.ascii_is_word w
           (Batch [fixtures.sample_input "rev002" "Slow";
                   fixtures.sample_input "rev004" "Again";
                   fixtures.sample_input "rev001" "Again"])
         = (Raised (HTTPException 400 (duplicate_detail (in_id x))), w))
  /\ total_reviews
       (root (snd (ingest_review fixtures.toy_compound fixtures.ascii_lower
                     fixtures.ascii_is_word w
                     (Batch [fixtures.sample_input "rev002" "Slow";
                             fixtures.sample_input "rev003" "Fine"]))))
     = 4.
Proof.
  intros w. split.
  - apply (proj1 (ingest_review_all_or_nothing fixtures.toy_compound
                    fixtures.ascii_lower fixtures.ascii_is_word w
                    (Batch [fixtures.sample_input "rev002" "Slow";
                            fixtures.sample_input "rev004" "Again";
                            fixtures.sample_input "rev001" "Again"]))).
    exists (fixtures.sample_input "rev001" "Again").
    split; [right; right; left; reflexivity | reflexivity].
  - destruct (proj2 (ingest_review_all_or_nothing fixtures.toy_compound
                       fixtures.ascii_lower fixtures.ascii_is_word w
                       (Batch [fixtures.sample_input "rev002" "Slow";
                               fixtures.sample_input "rev003" "Fine"])))
      as [_ [_ [Htotal _]]].
    + intros x [<- | [<- | []]]; reflexivity.
    + exact Htotal.
Defined.

Lemma ingest_review_keeps_stored_rows_witness :
  let row := mkRow "rev001" "NY" 5 "2025-10-04" "Great" "positive" ["quality"]
               (Some "Thank you!") in
  let w := mkWorld [] (mkDb [row] [row]) (fixtures.gemini_says "Hello") 0 in
  get_suggested_reply
    (db (snd (ingest_review fixtures.toy_compound fixtures.ascii_lower
                fixtures.ascii_is_word w
                (Batch [fixtures.sample_input "rev002" "Slow";
                        fixtures.sample_input "rev001" "Again"]))))
    "rev001"
  = Some "Thank you!".
Proof.
  intros row w.
  rewrite (proj2 (ingest_review_keeps_stored_rows fixtures.toy_compound
                    fixtures.ascii_lower fixtures.ascii_is_word w
                    (Batch [fixtures.sample_input "rev002" "Slow";
                            fixtures.sample_input "rev001" "Again"]) eq_refl)).
  reflexivity.
Defined.

Lemma ingest_generate_then_get_reply_witness :
  let w := mkWorld [] fixtures.empty_db (fixtures.gemini_says "We are sorry.") 0 in
  let review_data := fixtures.sample_input "rev002" fixtures.text_rev002 in
  fst (generate_reply
         (snd (ingest_review fixtures.toy_compound fixtures.ascii_lower
                 fixtures.ascii_is_word w (Single review_data))) "rev002")
  = Returned (mkReplyResponse "rev002" fixtures.text_rev002 "We are sorry.")
  /\ get_reply
       (snd (generate_reply
               (snd (ingest_review fixtures.toy_compound fixtures.ascii_lower
                       fixtures.ascii_is_word w (Single review_data))) "rev002"))
       "rev002"
     = Returned ("rev002", "We are sorry.").
Proof.
  intros w review_data.
  destruct (ingest_generate_then_get_reply fixtures.toy_compound
              fixtures.ascii_lower fixtures.ascii_is_word w review_data
              eq_refl eq_refl eq_refl) as [Hgen [Hget _]].
  split; [exact Hgen | apply Hget; discriminate].
Defined.

Lemma get_all_reviews_after_ingest_witness :
  let w := mkWorld [fixtures.sample_review "rev009" "Only in memory"]
             fixtures.empty_db (fixtures.gemini_says "Thank you!") 0 in
  get_all_reviews
    (snd (ingest_review fixtures.toy_compound fixtures.ascii_lower
            fixtures.ascii_is_word w
            (Single (fixtures.sample_input "rev001" "Fine"))))
  = [mkReview "rev001" "NY" 5 "2025-10-04" "Fine" "neutral" ["general"] None].
Proof.
  intros w.
  rewrite (get_all_reviews_after_ingest fixtures.toy_compound fixtures.ascii_lower
             fixtures.ascii_is_word w
             (Single (fixtures.sample_input "rev001" "Fine"))).
  - reflexivity.
  - discriminate.
  - simpl. repeat constructor. intros [].
  - intros x [<- | []]. repeat split; reflexivity.
Defined.

(** ** The similarity finder on the rows of the database *)

Section finder_on_database.
Variable tfidf_cosine : list string -> nat -> outcome (list Q).
Variable argsort : list Q -> list nat.
Hypothesis cosine_length :
  forall texts t sims,
    tfidf_cosine texts t = Returned sims -> List.length sims = List.length texts.
Hypothesis cosine_nonneg :
  forall texts t sims x,
    tfidf_cosine texts t = Returned sims -> In x sims -> (0 <= x)%Q.
Hypothesis argsort_perm :
  forall v, Permutation (argsort v) (seq 0 (List.length v)).
Hypothesis argsort_sorted :
  forall v, StronglySorted (fun i j => (nth i v 0 <= nth j v 0)%Q) (argsort v).

Local Abbreviation find_similar_reviews := (find_similar_reviews tfidf_cosine argsort).

Lemma load_all_reviews_from_table (store : ReviewDatabase) (memory : list Review) :
  working store <> [] ->
  load_all_reviews store memory = get_all_reviews_as_json store.
Proof.
  unfold load_all_reviews, get_all_reviews_as_json.
  destruct (working store); [congruence | reflexivity].
Qed.

(** X17. On a database of at least two rows whose ids are pairwise distinct
    and whose texts the vectoriser accepts, the finder works on the rows
    alone (the in-memory list plays no part), and for an id that has a row
    it returns min(2, rows - 1) pairwise distinct ids of rows, the query id
    never among them. *)
Theorem find_similar_reviews_on_table (review_id : string) (store : ReviewDatabase)
    (memory : list Review) :
  NoDup (map row_id (working store)) ->
  2 <= List.length (working store) ->
  has_id (working store) review_id = true ->
  spec.vectoriser_returns tfidf_cosine (map row_text (working store)) ->
  exists similar_review_ids,
    (forall other_memory,
        find_similar_reviews review_id store other_memory = Returned similar_review_ids)
    /\ find_similar_reviews review_id store memory = Returned similar_review_ids
    /\ List.length similar_review_ids = Nat.min 2 (List.length (working store) - 1)
    /\ NoDup similar_review_ids
    /\ ~ In review_id similar_review_ids
    /\ forall x, In x similar_review_ids -> has_id (working store) x = true.
Proof.
  intros Hkey Hsize Hid Haccepts.
  assert (Hne : working store <> [])
    by (destruct (working store); simpl in *; [lia | discriminate]).
  assert (Hids : map r_id (get_all_reviews_as_json store) = map row_id (working store)).
  { unfold get_all_reviews_as_json. rewrite map_map. now apply map_ext. }
  assert (Htexts : map r_text (get_all_reviews_as_json store)
                   = map row_text (working store)).
  { unfold get_all_reviews_as_json. rewrite map_map. now apply map_ext. }
  assert (Hlen : List.length (get_all_reviews_as_json store) = List.length (working store))
    by (unfold get_all_reviews_as_json; apply length_map).
  assert (Hpresent : main.id_in (get_all_reviews_as_json store) review_id = true).
  { unfold main.id_in, get_all_reviews_as_json. rewrite existsb_exists.
    unfold has_id in Hid. apply existsb_exists in Hid. destruct Hid as [row [Hin Heq]].
    exists (review_of_row row). split; [now apply in_map | exact Heq]. }
  pose proof (find_similar_reviews_shape tfidf_cosine argsort cosine_length
                cosine_nonneg argsort_perm argsort_sorted review_id store memory)
    as Hshape.
  rewrite (load_all_reviews_from_table store memory Hne), Hids, Htexts, Hlen in Hshape.
  destruct (Hshape Hsize Hpresent) as [target [Ht [Htid [_ [_ Hreturn]]]]].
  destruct (Haccepts target) as [sims Hsims].
  destruct (Hreturn sims Hsims) as [indices [Hres [Hcount [Hnd [Hrange _]]]]].
  rewrite <- (length_map row_id) in Ht.
  assert (Hrange' : forall i, In i indices ->
            i < List.length (map row_id (working store)) /\ i <> target)
    by (intros i Hi; rewrite length_map; now apply Hrange).
  destruct (distinct_ids_at_distinct_positions _ target indices Hkey Hnd Ht Hrange')
    as [Hdistinct Hother].
  eexists. split; [| split; [exact Hres |]].
  - intros other. rewrite <- Hres.
    unfold search_service.find_similar_reviews.
    now rewrite !(load_all_reviews_from_table store _ Hne).
  - split; [now rewrite length_map |]. split; [exact Hdistinct |].
    split.
    + intros Hin. destruct (Hother _ Hin) as [Hneq _]. congruence.
    + intros x Hx. destruct (Hother x Hx) as [_ Hin].
      unfold has_id. apply existsb_exists. apply in_map_iff in Hin.
      destruct Hin as [row [<- Hin]]. exists row.
      split; [exact Hin | apply String.eqb_refl].
Qed.

(** X18. In a corpus of two or three reviews that has the query id and that
    the vectoriser accepts, the finder returns the id of every review whose
    id is not the query id. *)
Theorem find_similar_reviews_small_corpus (review_id : string)
    (store : ReviewDatabase) (memory : list Review) :
  2 <= List.length (load_all_reviews store memory) ->
  List.length (load_all_reviews store memory) <= 3 ->
  main.id_in (load_all_reviews store memory) review_id = true ->
  spec.vectoriser_returns tfidf_cosine (map r_text (load_all_reviews store memory)) ->
  exists similar_review_ids,
    find_similar_reviews review_id store memory = Returned similar_review_ids
    /\ forall review, In review (load_all_reviews store memory) ->
                      r_id review <> review_id ->
                      In (r_id review) similar_review_ids.
Proof.
  intros Hsize Hsmall Hpresent Haccepts.
  destruct (find_similar_reviews_shape tfidf_cosine argsort cosine_length
              cosine_nonneg argsort_perm argsort_sorted review_id store memory
              Hsize Hpresent)
    as [target [Ht [Htid [_ [_ Hreturn]]]]].
  destruct (Haccepts target) as [sims Hsims].
  destruct (Hreturn sims Hsims) as [indices [Hres [Hcount [Hnd [Hrange _]]]]].
  set (corpus := load_all_reviews store memory) in *.
  eexists. split; [exact Hres |].
  intros review Hin Hne.
  destruct (In_nth _ _ review Hin) as [j [Hj Hnth]].
  assert (Hjt : j <> target).
  { intros ->. apply Hne. rewrite <- Htid, <- Hnth.
    rewrite <- (map_nth r_id corpus review target). apply nth_indep.
    now rewrite length_map. }
  assert (Hall : incl (seq 0 (List.length corpus)) (target :: indices)).
  { apply NoDup_length_incl.
    - constructor; [| exact Hnd]. intros Hc. now destruct (Hrange target Hc).
    - simpl. rewrite length_seq, Hcount. lia.
    - intros i [<- | Hi]; apply in_seq; [lia |].
      destruct (Hrange i Hi). lia. }
  assert (Hji : In j indices).
  { destruct (Hall j) as [Heq | Hi]; [apply in_seq; lia | congruence | exact Hi]. }
  apply in_map_iff. exists j. split; [| exact Hji].
  rewrite <- Hnth. rewrite <- (map_nth r_id corpus review j). apply nth_indep.
  now rewrite length_map.
Qed.
End finder_on_database.

Lemma find_similar_reviews_on_table_witness :
  let store := fixtures.db_of [fixtures.sample_review "rev001" "Great service";
                               fixtures.sample_review "rev002" "Slow service";
                               fixtures.sample_review "rev003" "Great service"] in
  exists similar_review_ids,
    find_similar_reviews fixtures.toy_cosine fixtures.insertion_argsort "rev001" store
      [fixtures.sample_review "rev001" "Stale"]
    = Returned similar_review_ids
    /\ List.length similar_review_ids = 2
    /\ NoDup similar_review_ids
    /\ ~ In "rev001" similar_review_ids.
Proof.
  intros store.
  destruct (find_similar_reviews_on_table fixtures.toy_cosine
              fixtures.insertion_argsort toy_cosine_length toy_cosine_nonneg
              insertion_argsort_perm insertion_argsort_sorted "rev001" store
              [fixtures.sample_review "rev001" "Stale"])
    as [ids [_ [Hres [Hlen [Hnd [Hnot _]]]]]].
  - simpl. repeat constructor; simpl; intuition discriminate.
  - simpl. lia.
  - reflexivity.
  - intros t. eexists. reflexivity.
  - exists ids. repeat (split; [assumption |]). exact Hnot.
Defined.

Lemma find_similar_reviews_small_corpus_witness :
  let memory := [fixtures.sample_review "rev001" "Great service";
                 fixtures.sample_review "rev002" "Slow service"] in
  exists similar_review_ids,
    find_similar_reviews fixtures.toy_cosine fixtures.insertion_argsort "rev001"
      fixtures.empty_db memory
    = Returned similar_review_ids
    /\ In "rev002" similar_review_ids.
Proof.
  intros memory.
  destruct (find_similar_reviews_small_corpus fixtures.toy_cosine
              fixtures.insertion_argsort toy_cosine_length toy_cosine_nonneg
              insertion_argsort_perm insertion_argsort_sorted "rev001"
              fixtures.empty_db memory)
    as [ids [Hres Hall]].
  - simpl. lia.
  - simpl. lia.
  - reflexivity.
  - intros t. eexists. reflexivity.
  - exists ids. split; [exact Hres |].
    apply (Hall (fixtures.sample_review "rev002" "Slow service")).
    + right. left. reflexivity.
    + discriminate.
Defined.

(** ** Topics and sentiment: further properties *)

Section more_topic_properties.
Variable str_lower : string -> string.
Variable is_word_char : ascii -> bool.

Local Abbreviation extract_topics := (extract_topics str_lower is_word_char).

Lemma general_is_no_topic_key : ~ In "general" (map fst TOPIC_KEYWORDS).
Proof. simpl. intuition discriminate. Qed.

Lemma matching_topics_are_keys (text_lower topic : string) :
  In topic (spec.matching_topics is_word_char text_lower) ->
  In topic (map fst TOPIC_KEYWORDS).
Proof.
  unfold spec.matching_topics. intros H. apply in_map_iff in H.
  destruct H as [item [<- Hin]]. apply filter_In in Hin. now apply in_map.
Qed.

(** X19. A keyword of the dictionary that stands in the lowered text as a
    word of its own (it starts and ends with a word character, and the
    characters next to it, if any, are not word characters) puts its topic
    in the result, and the result is then not the fallback. *)
Theorem keyword_as_own_word_yields_topic
    (text topic keyword pre post : string) (keywords : list string) :
  In (topic, keywords) TOPIC_KEYWORDS ->
  In keyword keywords ->
  str_lower text = (pre ++ keyword ++ post)%string ->
  is_w is_word_char (first_char keyword) = true ->
  is_w is_word_char (last_char_or None keyword) = true ->
  is_w is_word_char (last_char_or None pre) = false ->
  is_w is_word_char (first_char post) = false ->
  In topic (extract_topics text) /\ ~ In "general" (extract_topics text).
Proof.
  intros Hdict Hkw Hsplit Hfirst Hlast Hpre Hpost.
  assert (Hmatch : spec.whole_word_match is_word_char keyword (str_lower text)).
  { exists pre, post. split; [exact Hsplit |].
    destruct keyword as [| c k]; [discriminate |].
    unfold boundary.
    change (first_char (String c k ++ post)%string) with (first_char (String c k)).
    rewrite (last_char_or_nonempty c k _ None).
    rewrite Hpre, Hfirst, Hlast, Hpost. split; reflexivity. }
  assert (Hin : In topic (spec.matching_topics is_word_char (str_lower text))).
  { apply matching_topics_In. exists keywords, keyword. now repeat split. }
  rewrite extract_topics_refines. unfold spec.extract.
  destruct (spec.matching_topics is_word_char (str_lower text)) as [| t rest] eqn:E;
    [destruct Hin |].
  split; [exact Hin |].
  intros Hgen. apply general_is_no_topic_key.
  apply (matching_topics_are_keys (str_lower text)). now rewrite E.
Qed.

(** X20. The label general stands alone: it is in the result exactly when
    the result is the one-element list of it, which is exactly when no
    keyword of the dictionary matches; every other label returned is a key
    of the dictionary. *)
Theorem general_stands_alone (text : string) :
  (In "general" (extract_topics text) <-> extract_topics text = ["general"])
  /\ (extract_topics text = ["general"]
      <-> forall topic keywords keyword,
            In (topic, keywords) TOPIC_KEYWORDS -> In keyword keywords ->
            re_search_word is_word_char keyword (str_lower text) = false)
  /\ (forall topic, In topic (extract_topics text) ->
                    topic = "general" \/ In topic (map fst TOPIC_KEYWORDS)).
Proof.
  rewrite extract_topics_refines. unfold spec.extract.
  pose proof (matching_topics_are_keys (str_lower text)) as Hkeys.
  destruct (spec.matching_topics is_word_char (str_lower text)) as [| t rest] eqn:E.
  - split; [| split].
    + split; [reflexivity | intros _; now left].
    + split; [| reflexivity]. intros _ topic keywords keyword Hd Hk.
      destruct (re_search_word is_word_char keyword (str_lower text)) eqn:Em;
        [| reflexivity].
      exfalso. assert (Hin : In topic []).
      { rewrite <- E. apply matching_topics_In. exists keywords, keyword.
        repeat split; try assumption. now apply re_search_word_spec. }
      destruct Hin.
    + intros topic [<- | []]. now left.
  - assert (Hnot : ~ In "general" (t :: rest))
      by (intros H; apply general_is_no_topic_key; now apply Hkeys).
    split; [| split].
    + split; [intros H; now destruct Hnot |].
      intros H. exfalso. apply Hnot. rewrite H. now left.
    + split.
      * intros H. exfalso. apply Hnot. rewrite H. now left.
      * intros Hnone. exfalso.
        assert (Hin : In t (spec.matching_topics is_word_char (str_lower text)))
          by (rewrite E; now left).
        apply matching_topics_In in Hin.
        destruct Hin as [keywords [keyword [Hd [Hk Hm]]]].
        apply re_search_word_spec in Hm.
        rewrite (Hnone t keywords keyword Hd Hk) in Hm. discriminate.
    + intros topic Hin. right. now apply Hkeys.
Qed.
End more_topic_properties.

Lemma keyword_as_own_word_yields_topic_witness :
  In "timeliness"
     (extract_topics fixtures.ascii_lower fixtures.ascii_is_word "Always ON TIME.")
  /\ In "efficiency"
       (extract_topics fixtures.ascii_lower fixtures.ascii_is_word "So timely!").
Proof.
  split.
  - apply (keyword_as_own_word_yields_topic fixtures.ascii_lower
             fixtures.ascii_is_word "Always ON TIME." "timeliness" "on time"
             "always " "."
             ["on time"; "punctual"; "deadline"; "schedule"; "timely"]);
      try reflexivity.
    + simpl. tauto.
    + now left.
  - apply (keyword_as_own_word_yields_topic fixtures.ascii_lower
             fixtures.ascii_is_word "So timely!" "efficiency" "timely" "so " "!"
             ["efficient"; "efficiency"; "quick"; "fast"; "timely"; "prompt"; "speedy"]);
      try reflexivity.
    + simpl. tauto.
    + simpl. tauto.
Defined.

Section more_sentiment_properties.
Variable polarity_compound : string -> Q.

Local Abbreviation analyze_sentiment := (analyze_sentiment polarity_compound).

(** X21. The label follows the score: two texts with equal scores get the
    same label, and when one text scores no more than another, it is
    positive only if the other is and the other is negative only if it is. *)
Theorem analyze_sentiment_monotone (text1 text2 : string) :
  ((polarity_compound text1 == polarity_compound text2)%Q ->
     analyze_sentiment text1 = analyze_sentiment text2)
  /\ ((polarity_compound text1 <= polarity_compound text2)%Q ->
      (analyze_sentiment text1 = "positive" -> analyze_sentiment text2 = "positive")
      /\ (analyze_sentiment text2 = "negative" -> analyze_sentiment text1 = "negative")).
Proof.
  unfold main.analyze_sentiment.
  destruct (Qle_bool (5 # 100) (polarity_compound text1)) eqn:P1;
    destruct (Qle_bool (5 # 100) (polarity_compound text2)) eqn:P2;
    destruct (Qle_bool (polarity_compound text1) (- (5 # 100))) eqn:N1;
    destruct (Qle_bool (polarity_compound text2) (- (5 # 100))) eqn:N2;
    repeat match goal with
           | H : Qle_bool _ _ = true |- _ => apply Qle_bool_iff in H
           | H : Qle_bool ?a ?b = false |- _ =>
               assert (b < a)%Q
                 by (apply Qnot_le_lt; intro Hc; apply Qle_bool_iff in Hc; congruence);
               clear H
           end;
    (split; [intros Heq | intros Hle; split; intros Hlab]);
    try reflexivity; try discriminate; exfalso; lra.
Qed.
End more_sentiment_properties.

Lemma analyze_sentiment_monotone_witness :
  analyze_sentiment fixtures.toy_compound "Disappointed" = "negative"
  /\ analyze_sentiment fixtures.toy_compound "EXCELLENT"
     = analyze_sentiment fixtures.toy_compound fixtures.text_rev001.
Proof.
  split.
  - destruct (analyze_sentiment_monotone fixtures.toy_compound "Disappointed"
                fixtures.text_rev002) as [_ Hle].
    destruct Hle as [_ Hdown]; [vm_compute; discriminate |].
    apply Hdown. reflexivity.
  - apply (proj1 (analyze_sentiment_monotone fixtures.toy_compound "EXCELLENT"
                    fixtures.text_rev001)).
    reflexivity.
Defined.
